(** * Annotation queues: claim, lease, enrollment and completion

    A shallow embedding of the two tRPC routers
    [web/src/server/api/routers/annotationQueues.ts] (procedure [next]) and
    [web/src/server/api/routers/annotationQueueItems.ts] (procedures
    [create], [createMany], [delete], [complete]), over an explicit model of
    the item table they query through the Prisma client.

    Timestamps are the millisecond counts of [Date.getTime()], kept in [Z].
    Procedures are programs in a small state-and-exception monad over the
    store; every [await]ed Prisma call is one indivisible store operation. *)

From Stdlib Require Import List ZArith Lia Bool String Arith.
From Stdlib Require Import Permutation Sorted.
Import ListNotations.
Local Open Scope string_scope.
Local Open Scope list_scope.
Local Open Scope Z_scope.

(* ------------------------------------------------------------------ *)
(** ** Data model *)

Definition Id := string.
Definition Time := Z.

(** Modelled from the spec: the closed enumeration of reviewed object kinds
    ([AnnotationQueueObjectType] of [@langfuse/shared]); the routers only
    ever name [OBSERVATION]. *)
Inductive AnnotationQueueObjectType :=
| TRACE | OBSERVATION | SESSION | DATASET_ITEM.

Inductive AnnotationQueueStatus := PENDING | COMPLETED.

(** Modelled from the spec: the row type of [annotationQueueItem] (the
    Prisma schema), with the column names the routers use.  [editStartTime]
    and [editStartByUserId] are the lease start and the lease holder,
    [annotatorUserId] is the completer. *)
Record AnnotationQueueItem := mkItem {
  id : Id;
  projectId : Id;
  queueId : Id;
  objectId : Id;
  objectType : AnnotationQueueObjectType;
  status : AnnotationQueueStatus;
  editStartTime : option Time;
  editStartByUserId : option Id;
  completedAt : option Time;
  annotatorUserId : option Id;
  createdAt : Time
}.

Record Observation := mkObservation {
  obsId : Id;
  obsProjectId : Id;
  traceId : option Id
}.

Record AuditLogEntry := mkAudit {
  resourceType : string;
  resourceId : Id;
  action : string;
  auditUserId : Id
}.

(** The store.  [items] lists the rows in the order the database yields them
    when a query gives no further ordering. *)
Record Store := mkStore {
  items : list AnnotationQueueItem;
  observations : list Observation;
  auditLogs : list AuditLogEntry
}.

Definition withItems (s : Store) (l : list AnnotationQueueItem) : Store :=
  mkStore l (observations s) (auditLogs s).

Record Session := mkSession {
  userId : Id;
  hasAccess : Id -> string -> bool
}.

Definition objectType_eqb (a b : AnnotationQueueObjectType) : bool :=
  match a, b with
  | TRACE, TRACE | OBSERVATION, OBSERVATION
  | SESSION, SESSION | DATASET_ITEM, DATASET_ITEM => true
  | _, _ => false
  end.

Definition status_eqb (a b : AnnotationQueueStatus) : bool :=
  match a, b with
  | PENDING, PENDING | COMPLETED, COMPLETED => true
  | _, _ => false
  end.

(* ------------------------------------------------------------------ *)
(** ** Errors and the procedure monad *)

Inductive TRPCCode := FORBIDDEN | INTERNAL_SERVER_ERROR.

(** Modelled from the spec: the error classes.  [TRPCError] comes from
    [@trpc/server]; [LangfuseNotFoundError] from [@langfuse/shared] is the
    distinct NotFound kind and is not a [TRPCError]; [PrismaError] stands for
    the client's known request errors (P2002 unique violation, P2025 record
    not found). *)
Inductive Error :=
| TRPCError (code : TRPCCode) (message : string)
| LangfuseNotFoundError (message : string)
| PrismaError (code : string).

Inductive Outcome (A : Type) :=
| Return (a : A)
| Throw (e : Error).
Arguments Return {A} a.
Arguments Throw {A} e.

Definition Prog (A : Type) := Store -> Outcome A * Store.

Definition ret {A} (a : A) : Prog A := fun s => (Return a, s).
Definition throw {A} (e : Error) : Prog A := fun s => (Throw e, s).

Definition bind {A B} (m : Prog A) (k : A -> Prog B) : Prog B :=
  fun s => match m s with
           | (Return a, s') => k a s'
           | (Throw e, s') => (Throw e, s')
           end.

(** [try { m } catch (error) { h error }]: the handler runs on the store as
    the failed body left it. *)
Definition tryCatch {A} (m : Prog A) (h : Error -> Prog A) : Prog A :=
  fun s => match m s with
           | (Return a, s') => (Return a, s')
           | (Throw e, s') => h e s'
           end.

Notation "x <- m ;; k" := (bind m (fun x => k))
  (at level 61, m at next level, right associativity).
Notation "m ;;; k" := (bind m (fun _ => k))
  (at level 61, right associativity).

(** The [catch] block shared by [create], [createMany] and [delete]: a
    [TRPCError] is rethrown, anything else is replaced. *)
Definition rethrowOrWrap {A} (message : string) (error : Error) : Prog A :=
  match error with
  | TRPCError _ _ => throw error
  | _ => throw (TRPCError INTERNAL_SERVER_ERROR message)
  end.

Definition throwIfNoProjectAccess (session : Session) (project : Id)
    (scope : string) : Prog unit :=
  if hasAccess session project scope then ret tt
  else throw (TRPCError FORBIDDEN
                "User does not have access to this resource or action").

Definition auditLog (e : AuditLogEntry) : Prog unit :=
  fun s => (Return tt, mkStore (items s) (observations s) (auditLogs s ++ [e])).

(* ------------------------------------------------------------------ *)
(** ** The Prisma client on [annotationQueueItem] *)

(** Modelled from the spec: the unique keys of the item table.  [id] is the
    primary key; the pair (queueId, objectRef) is the duplicate key that
    [skipDuplicates] relies on ("pairs that already exist as items in the
    queue are skipped"). *)
Definition samePair (a b : AnnotationQueueItem) : bool :=
  String.eqb (queueId a) (queueId b)
  && String.eqb (objectId a) (objectId b)
  && objectType_eqb (objectType a) (objectType b).

Definition conflicts (a b : AnnotationQueueItem) : bool :=
  String.eqb (id a) (id b) || samePair a b.

Definition violatesUnique (d : AnnotationQueueItem)
    (rows : list AnnotationQueueItem) : bool :=
  existsb (conflicts d) rows.

(** [findFirst({ where })]: the first row the store yields. *)
Definition findFirstRow (where_ : AnnotationQueueItem -> bool)
    (rows : list AnnotationQueueItem) : option AnnotationQueueItem :=
  find where_ rows.

(** The row an [orderBy: { createdAt: "asc" }] puts first.  Nothing orders
    rows of equal [createdAt], so the one met first stays first. *)
Fixpoint firstByCreatedAt (rows : list AnnotationQueueItem)
  : option AnnotationQueueItem :=
  match rows with
  | [] => None
  | x :: tl =>
      match firstByCreatedAt tl with
      | None => Some x
      | Some y => if createdAt x <=? createdAt y then Some x else Some y
      end
  end.

Definition findFirst (where_ : AnnotationQueueItem -> bool)
  : Prog (option AnnotationQueueItem) :=
  fun s => (Return (findFirstRow where_ (items s)), s).

Definition findFirstOrderByCreatedAt (where_ : AnnotationQueueItem -> bool)
  : Prog (option AnnotationQueueItem) :=
  fun s => (Return (firstByCreatedAt (filter where_ (items s))), s).

(** [create({ data })]: a unique violation throws and inserts nothing. *)
Definition prismaCreate (d : AnnotationQueueItem) : Prog AnnotationQueueItem :=
  fun s => if violatesUnique d (items s)
           then (Throw (PrismaError "P2002"), s)
           else (Return d, withItems s (items s ++ [d])).

(** [createMany({ data, skipDuplicates: true })]: rows are inserted in order,
    a row that conflicts with one already present (or inserted earlier in the
    batch) is skipped; the result counts the rows inserted. *)
Fixpoint insertSkipDuplicates (data rows : list AnnotationQueueItem)
  : list AnnotationQueueItem * nat :=
  match data with
  | [] => (rows, 0%nat)
  | d :: ds =>
      if violatesUnique d rows then insertSkipDuplicates ds rows
      else let (rows', n) := insertSkipDuplicates ds (rows ++ [d]) in
           (rows', S n)
  end.

Definition prismaCreateMany (data : list AnnotationQueueItem) : Prog nat :=
  fun s => let (rows', n) := insertSkipDuplicates data (items s) in
           (Return n, withItems s rows').

(** [update({ where, data })] on a unique row: throws when no row matches. *)
Definition prismaUpdate (where_ : AnnotationQueueItem -> bool)
    (data : AnnotationQueueItem -> AnnotationQueueItem)
  : Prog AnnotationQueueItem :=
  fun s => match find where_ (items s) with
           | None => (Throw (PrismaError "P2025"), s)
           | Some r =>
               (Return (data r),
                withItems s (map (fun x => if where_ x then data x else x)
                                 (items s)))
           end.

(** [updateMany({ where, data })]: returns the number of rows matched. *)
Definition prismaUpdateMany (where_ : AnnotationQueueItem -> bool)
    (data : AnnotationQueueItem -> AnnotationQueueItem) : Prog nat :=
  fun s => (Return (List.length (filter where_ (items s))),
            withItems s (map (fun x => if where_ x then data x else x)
                             (items s))).

(** [delete({ where })] on a unique row: throws when no row matches. *)
Definition prismaDelete (where_ : AnnotationQueueItem -> bool)
  : Prog AnnotationQueueItem :=
  fun s => match find where_ (items s) with
           | None => (Throw (PrismaError "P2025"), s)
           | Some r =>
               (Return r,
                withItems s (filter (fun x => negb (where_ x)) (items s)))
           end.

Definition observationFindUnique (oid project : Id)
  : Prog (option Observation) :=
  fun s => (Return (find (fun o => String.eqb (obsId o) oid
                                   && String.eqb (obsProjectId o) project)
                         (observations s)), s).

(* ------------------------------------------------------------------ *)
(** ** [queueRouter.next] *)

Definition LEASE_MS : Z := 5 * 60 * 1000.

(** The [where] clause of [next]. *)
Definition nextWhere (queue project : Id) (fiveMinutesAgo : Time)
    (x : AnnotationQueueItem) : bool :=
  String.eqb (queueId x) queue
  && String.eqb (projectId x) project
  && status_eqb (status x) PENDING
  && match editStartTime x with
     | None => true
     | Some t => t <? fiveMinutesAgo
     end.

Definition byIdInProject (i project : Id) (x : AnnotationQueueItem) : bool :=
  String.eqb (id x) i && String.eqb (projectId x) project.

Definition setLease (now : Time) (user : Id) (x : AnnotationQueueItem)
  : AnnotationQueueItem :=
  mkItem (id x) (projectId x) (queueId x) (objectId x) (objectType x)
         (status x) (Some now) (Some user)
         (completedAt x) (annotatorUserId x) (createdAt x).

(** What [next] hands back: the row as it was read, and for an observation
    the trace it belongs to. *)
Record NextItem := mkNextItem {
  item : AnnotationQueueItem;
  parentTraceId : option Id
}.

(** The read-only parent lookup that ends [next]. *)
Definition lookupParent (project : Id) (x : AnnotationQueueItem)
  : Prog (option NextItem) :=
  if objectType_eqb (objectType x) OBSERVATION then
    observation <- observationFindUnique (objectId x) project ;;
    ret (Some (mkNextItem x match observation with
                            | Some o => traceId o
                            | None => None
                            end))
  else ret (Some (mkNextItem x None)).

(** [now] is the clock as [new Date()] reads it on entry. *)
Definition next (session : Session) (queue project : Id) (now : Time)
  : Prog (option NextItem) :=
  let fiveMinutesAgo := now - LEASE_MS in
  found <- findFirstOrderByCreatedAt (nextWhere queue project fiveMinutesAgo) ;;
  match found with
  | None => ret None
  | Some x =>
      prismaUpdate (byIdInProject (id x) project)
                   (setLease now (userId session)) ;;;
      lookupParent project x
  end.

(** *** Overlapping calls

    [next] awaits the store three times.  Between two awaits another request
    may run, so a call in flight is a program point, and a schedule names the
    call that performs its next store operation. *)
Record NextCall := mkNextCall {
  callSession : Session;
  callQueue : Id;
  callProject : Id;
  callNow : Time
}.

Inductive NextPoint :=
| AtFindFirst
| AtUpdate (x : AnnotationQueueItem)
| AtLookup (x : AnnotationQueueItem)
| Finished (r : Outcome (option NextItem)).

Definition stepNext (c : NextCall) (pt : NextPoint) (s : Store)
  : NextPoint * Store :=
  match pt with
  | AtFindFirst =>
      match findFirstOrderByCreatedAt
              (nextWhere (callQueue c) (callProject c) (callNow c - LEASE_MS)) s
      with
      | (Return None, s') => (Finished (Return None), s')
      | (Return (Some x), s') => (AtUpdate x, s')
      | (Throw e, s') => (Finished (Throw e), s')
      end
  | AtUpdate x =>
      match prismaUpdate (byIdInProject (id x) (callProject c))
                         (setLease (callNow c) (userId (callSession c))) s
      with
      | (Return _, s') => (AtLookup x, s')
      | (Throw e, s') => (Finished (Throw e), s')
      end
  | AtLookup x =>
      let (r, s') := lookupParent (callProject c) x s in (Finished r, s')
  | Finished r => (Finished r, s)
  end.

Fixpoint stepAt (k : nat) (calls : list (NextCall * NextPoint)) (s : Store)
  : list (NextCall * NextPoint) * Store :=
  match calls, k with
  | [], _ => ([], s)
  | (c, pt) :: tl, O =>
      let (pt', s') := stepNext c pt s in ((c, pt') :: tl, s')
  | cp :: tl, S k' =>
      let (tl', s') := stepAt k' tl s in (cp :: tl', s')
  end.

Fixpoint runSchedule (schedule : list nat)
    (calls : list (NextCall * NextPoint)) (s : Store)
  : list (NextCall * NextPoint) * Store :=
  match schedule with
  | [] => (calls, s)
  | k :: rest => let (calls', s') := stepAt k calls s in
                 runSchedule rest calls' s'
  end.

Definition startAll (cs : list NextCall) : list (NextCall * NextPoint) :=
  map (fun c => (c, AtFindFirst)) cs.

(** The rows handed out by the calls that have finished with an item. *)
Definition claimedIds (calls : list (NextCall * NextPoint)) : list Id :=
  flat_map (fun cp => match snd cp with
                      | Finished (Return (Some r)) => [id (item r)]
                      | _ => []
                      end) calls.

(** Calls that run one after the other, each to its end. *)
Fixpoint nextSeq (cs : list NextCall) (s : Store)
  : list (Outcome (option NextItem)) * Store :=
  match cs with
  | [] => ([], s)
  | c :: rest =>
      let (r, s') := next (callSession c) (callQueue c) (callProject c)
                          (callNow c) s in
      let (rs, s'') := nextSeq rest s' in
      (r :: rs, s'')
  end.

(* ------------------------------------------------------------------ *)
(** ** [queueItemRouter] *)

(** A fresh row: the store's defaults are [PENDING], no lease, no completion
    stamps, [createdAt] the insertion time.  [newId] is the identifier the
    client generates for the row. *)
Definition newItem (newId project queue object : Id)
    (type : AnnotationQueueObjectType) (now : Time) : AnnotationQueueItem :=
  mkItem newId project queue object type PENDING None None None None now.

Definition create (session : Session) (project queue object : Id)
    (type : AnnotationQueueObjectType) (newId : Id) (now : Time)
  : Prog AnnotationQueueItem :=
  tryCatch
    (throwIfNoProjectAccess session project "scoreConfigs:CUD" ;;;
     queueItem <- prismaCreate (newItem newId project queue object type now) ;;
     ret queueItem)
    (rethrowOrWrap "Creating annotation queue failed.").

Definition MAX_ITEMS : nat := 500.

Record CreateManyResult := mkCreateManyResult {
  count : nat;
  totalRequested : nat;
  created : nat
}.

(** [newIds k] is the identifier generated for the row at position [k] of
    the batch. *)
Definition createManyData (project queue : Id)
    (type : AnnotationQueueObjectType) (newIds : nat -> Id) (now : Time)
    (limitedObjectIds : list Id) : list AnnotationQueueItem :=
  map (fun ko => newItem (newIds (fst ko)) project queue (snd ko) type now)
      (combine (seq 0 (List.length limitedObjectIds)) limitedObjectIds).

Definition createMany (session : Session) (project queue : Id)
    (objectIds : list Id) (type : AnnotationQueueObjectType)
    (newIds : nat -> Id) (now : Time) : Prog CreateManyResult :=
  tryCatch
    (throwIfNoProjectAccess session project "scoreConfigs:CUD" ;;;
     let limitedObjectIds := firstn MAX_ITEMS objectIds in
     createdItems <- prismaCreateMany
                       (createManyData project queue type newIds now
                                       limitedObjectIds) ;;
     ret (mkCreateManyResult createdItems
                             (List.length objectIds)
                             (Nat.min (List.length objectIds) MAX_ITEMS)))
    (rethrowOrWrap "Creating multiple annotation queue items failed.").

(** The [where] clause of [delete]: no queue is named. *)
Definition deleteWhere (project object : Id)
    (type : AnnotationQueueObjectType) (x : AnnotationQueueItem) : bool :=
  String.eqb (objectId x) object
  && objectType_eqb (objectType x) type
  && String.eqb (projectId x) project.

(** The [try] block of [delete]. *)
Definition deleteTry (session : Session) (project object : Id)
    (type : AnnotationQueueObjectType) : Prog AnnotationQueueItem :=
  throwIfNoProjectAccess session project "scoreConfigs:CUD" ;;;
  found <- findFirst (deleteWhere project object type) ;;
  match found with
  | None => throw (LangfuseNotFoundError "Annotation queue item not found.")
  | Some x =>
      deletedItem <- prismaDelete (byIdInProject (id x) project) ;;
      auditLog (mkAudit "annotationQueueItem" (id deletedItem) "delete"
                        (userId session)) ;;;
      ret deletedItem
  end.

Definition delete (session : Session) (project object : Id)
    (type : AnnotationQueueObjectType) : Prog AnnotationQueueItem :=
  tryCatch (deleteTry session project object type)
           (rethrowOrWrap "Creating annotation queue failed.").

(** The [where] clause of [complete]: no condition on [status]. *)
Definition completeWhere (queue project object : Id)
    (type : AnnotationQueueObjectType) (x : AnnotationQueueItem) : bool :=
  String.eqb (queueId x) queue
  && String.eqb (projectId x) project
  && String.eqb (objectId x) object
  && objectType_eqb (objectType x) type.

Definition setCompleted (now : Time) (user : Id) (x : AnnotationQueueItem)
  : AnnotationQueueItem :=
  mkItem (id x) (projectId x) (queueId x) (objectId x) (objectType x)
         COMPLETED (editStartTime x) (editStartByUserId x)
         (Some now) (Some user) (createdAt x).

(** Returns the [count] of the batch update. *)
Definition complete (session : Session) (project queue object : Id)
    (type : AnnotationQueueObjectType) (now : Time) : Prog nat :=
  prismaUpdateMany (completeWhere queue project object type)
                   (setCompleted now (userId session)).

(* ------------------------------------------------------------------ *)
(** ** Store invariants and sample data *)

(** [id] is the primary key. *)
Definition uniqueIds (rows : list AnnotationQueueItem) : Prop :=
  NoDup (map id rows).

Definition pairIs (queue object : Id) (type : AnnotationQueueObjectType)
    (x : AnnotationQueueItem) : bool :=
  String.eqb (queueId x) queue
  && String.eqb (objectId x) object
  && objectType_eqb (objectType x) type.

(** No two rows stand for the same (queueId, objectRef). *)
Definition uniquePairs (rows : list AnnotationQueueItem) : Prop :=
  ForallOrdPairs (fun a b => samePair a b = false) rows.

(** The pending rows of a queue that nobody has leased. *)
Definition pendingUnleased (queue project : Id)
    (rows : list AnnotationQueueItem) : list AnnotationQueueItem :=
  filter (fun x => String.eqb (queueId x) queue
                   && String.eqb (projectId x) project
                   && status_eqb (status x) PENDING
                   && match editStartTime x with
                      | None => true
                      | Some _ => false
                      end) rows.

(** A lease taken at [lo] or later: it outlasts every [now <= lo + LEASE_MS]. *)
Definition heldSince (lo : Time) (x : AnnotationQueueItem) : Prop :=
  exists T, editStartTime x = Some T /\ lo <= T.

(** [subseq l l']: [l] is [l'] with some entries left out, order kept. *)
Inductive subseq {A : Type} : list A -> list A -> Prop :=
| subseq_nil : subseq [] []
| subseq_skip x l l' : subseq l l' -> subseq l (x :: l')
| subseq_take x l l' : subseq l l' -> subseq (x :: l) (x :: l').

(** Rows [added] to [rows] without repeating a (queueId, objectRef): none
    shares its pair with a row of [rows] or with another added row. *)
Definition noNewDuplicate (rows added : list AnnotationQueueItem) : Prop :=
  (forall a r, In a added -> In r rows -> samePair a r = false)
  /\ ForallOrdPairs (fun a b => samePair a b = false) added.

(** The rows [next] may hand out at [now], and the rows after its write. *)
Definition candidates (queue project : Id) (now : Time)
    (rows : list AnnotationQueueItem) : list AnnotationQueueItem :=
  filter (nextWhere queue project (now - LEASE_MS)) rows.

Definition claimRow (i project : Id) (now : Time) (user : Id)
    (rows : list AnnotationQueueItem) : list AnnotationQueueItem :=
  map (fun y => if byIdInProject i project y then setLease now user y else y)
      rows.

(** A call on the given queue at a time within one lease duration of [lo]. *)
Definition inWindow (queue project : Id) (lo : Time) (c : NextCall) : Prop :=
  callQueue c = queue /\ callProject c = project
  /\ lo <= callNow c <= lo + LEASE_MS.

Module Sample.
Definition alice : Session := mkSession "alice" (fun _ _ => true).
Definition bob : Session := mkSession "bob" (fun _ _ => true).

Definition pending (i object : Id) (created : Time) : AnnotationQueueItem :=
  newItem i "p" "q" object TRACE created.

Definition leased (i object : Id) (created start : Time)
  : AnnotationQueueItem :=
  setLease start "alice" (pending i object created).

Definition store (rows : list AnnotationQueueItem) : Store :=
  mkStore rows [] [].

(** Distinct object ids, as many as asked for. *)
Definition objectName (k : nat) : Id :=
  String (Ascii.ascii_of_nat (k / 128))
         (String (Ascii.ascii_of_nat (k mod 128)) EmptyString).

Definition objects (n : nat) : list Id := map objectName (seq 0 n).

Definition itemName (k : nat) : Id := String.append "i" (objectName k).
End Sample.

(* ------------------------------------------------------------------ *)
(** ** [queueItemRouter]: the remaining procedures on the item table *)

(** [findUnique({ where: { id, projectId } })]. *)
Definition findUniqueItem (i project : Id)
  : Prog (option AnnotationQueueItem) :=
  fun s => (Return (find (byIdInProject i project) (items s)), s).

(** [observation.findUnique({ where: { id } })]: the project is not part of
    this lookup. *)
Definition observationFindUniqueById (oid : Id) : Prog (option Observation) :=
  fun s => (Return (find (fun o => String.eqb (obsId o) oid)
                         (observations s)), s).

(** What [byId] hands back: the row, and for an observation the trace it
    belongs to. *)
Record ItemById := mkItemById {
  itemRow : AnnotationQueueItem;
  parentObjectId : option Id
}.

Definition byId (project itemId : Id) : Prog (option ItemById) :=
  found <- findUniqueItem itemId project ;;
  match found with
  | None => ret None
  | Some x =>
      if objectType_eqb (objectType x) OBSERVATION then
        observation <- observationFindUniqueById (objectId x) ;;
        ret (Some (mkItemById x match observation with
                                | Some o => traceId o
                                | None => None
                                end))
      else ret (Some (mkItemById x None))
  end.

(** [for (const x of l) await f(x)]. *)
Fixpoint forEach {A} (l : list A) (f : A -> Prog unit) : Prog unit :=
  match l with
  | [] => ret tt
  | a :: tl => f a ;;; forEach tl f
  end.

(** [deleteMany({ where })]: returns the number of rows removed. *)
Definition prismaDeleteMany (where_ : AnnotationQueueItem -> bool)
  : Prog nat :=
  fun s => (Return (List.length (filter where_ (items s))),
            withItems s (filter (fun x => negb (where_ x)) (items s))).

(** The [where] clause of [deleteMany]: [id in itemIds] within the project. *)
Definition deleteManyWhere (itemIds : list Id) (project : Id)
    (x : AnnotationQueueItem) : bool :=
  existsb (String.eqb (id x)) itemIds && String.eqb (projectId x) project.

(** The resolver of [deleteMany]; its input schema rejects an empty
    [itemIds] before the resolver runs.  Every requested id is logged first,
    then the rows are removed in one statement. *)
Definition deleteMany (session : Session) (project : Id) (itemIds : list Id)
  : Prog nat :=
  tryCatch
    (throwIfNoProjectAccess session project "scoreConfigs:CUD" ;;;
     forEach itemIds
       (fun itemId => auditLog (mkAudit "annotationQueueItem" itemId "delete"
                                        (userId session))) ;;;
     prismaDeleteMany (deleteManyWhere itemIds project))
    (rethrowOrWrap "Deleting annotation queue items failed.").

(* ------------------------------------------------------------------ *)
(** ** The queue table, [queueRouter], and the queries that join it *)

Declare Scope queue_scope.

Module Queues.

(** The rows of [annotationQueue] and [scoreConfig], with the columns the
    routers read and write. *)
Record AnnotationQueue := mkQueue {
  qId : Id;
  qName : string;
  qDescription : option string;
  qScoreConfigs : list Id;
  qProjectId : Id;
  qCreatedAt : Time
}.

Record ScoreConfig := mkScoreConfig {
  cfgId : Id;
  cfgName : string;
  cfgDataType : string;
  cfgProjectId : Id
}.

(** An audit entry of the queue router: it carries the queue before and
    after the change. *)
Record QueueAudit := mkQueueAudit {
  qaResourceId : Id;
  qaAction : string;
  qaUserId : Id;
  before : option AnnotationQueue;
  after : option AnnotationQueue
}.

Record Db := mkDb {
  queues : list AnnotationQueue;
  scoreConfigs : list ScoreConfig;
  queueAuditLogs : list QueueAudit;
  itemStore : Store
}.

Definition withQueues (db : Db) (l : list AnnotationQueue) : Db :=
  mkDb l (scoreConfigs db) (queueAuditLogs db) (itemStore db).

Definition inProject (project : Id) (q : AnnotationQueue) : bool :=
  String.eqb (qProjectId q) project.

(** *** Read-only procedures *)

(** [allNamesAndIds]: [select: { id, name }] of the project's queues. *)
Definition allNamesAndIds (project : Id) (db : Db) : list (Id * string) :=
  map (fun q => (qId q, qName q)) (filter (inProject project) (queues db)).

(** The [where] clause shared by [getItemsByObjectId] and [byObjectId]. *)
Definition referencesObject (project object : Id)
    (type : AnnotationQueueObjectType) (x : AnnotationQueueItem) : bool :=
  String.eqb (projectId x) project
  && String.eqb (objectId x) object
  && objectType_eqb (objectType x) type.

Record QueueFlag := mkQueueFlag {
  flagId : Id;
  flagName : string;
  includesItem : bool
}.

(** The [map] callback of [getItemsByObjectId], which also counts: the
    counter is threaded through the traversal. *)
Fixpoint flagQueues (referencedQueueIds : list Id)
    (qs : list AnnotationQueue) (totalCount : nat) : list QueueFlag * nat :=
  match qs with
  | [] => ([], totalCount)
  | q :: rest =>
      let includes := existsb (fun queueId => String.eqb queueId (qId q))
                              referencedQueueIds in
      let totalCount' := if includes then S totalCount else totalCount in
      let (flags, n) := flagQueues referencedQueueIds rest totalCount' in
      (mkQueueFlag (qId q) (qName q) includes :: flags, n)
  end.

(** [queueItemRouter.getItemsByObjectId]; the object literal evaluates
    [queues] first, so [totalCount] is read after the traversal. *)
Definition getItemsByObjectId (project object : Id)
    (type : AnnotationQueueObjectType) (db : Db) : list QueueFlag * nat :=
  let referencedItems :=
    map queueId (filter (referencesObject project object type)
                        (items (itemStore db))) in
  let queueNamesAndIds := filter (inProject project) (queues db) in
  flagQueues referencedItems queueNamesAndIds 0%nat.

(** A JavaScript [Map] from queue id to status: entries keep the position of
    their first insertion, a later [set] of the same key replaces the
    value. *)
Fixpoint mapSet (k : Id) (v : AnnotationQueueStatus)
    (m : list (Id * AnnotationQueueStatus))
  : list (Id * AnnotationQueueStatus) :=
  match m with
  | [] => [(k, v)]
  | (k', v') :: tl =>
      if String.eqb k' k then (k', v) :: tl else (k', v') :: mapSet k v tl
  end.

Definition newMap (entries : list (Id * AnnotationQueueStatus))
  : list (Id * AnnotationQueueStatus) :=
  fold_left (fun m e => mapSet (fst e) (snd e) m) entries [].

Fixpoint mapGet (k : Id) (m : list (Id * AnnotationQueueStatus))
  : option AnnotationQueueStatus :=
  match m with
  | [] => None
  | (k', v) :: tl => if String.eqb k' k then Some v else mapGet k tl
  end.

Definition mapHas (k : Id) (m : list (Id * AnnotationQueueStatus)) : bool :=
  match mapGet k m with Some _ => true | None => false end.

Record QueueStatus := mkQueueStatus {
  qsId : Id;
  qsName : string;
  qsIncludesItem : bool;
  qsStatus : option AnnotationQueueStatus
}.

(** [queueRouter.byObjectId]; both statuses are truthy strings, so
    [get(...) || undefined] is [get(...)]. *)
Definition byObjectId (project object : Id)
    (type : AnnotationQueueObjectType) (db : Db) : list QueueStatus * nat :=
  let referencedItems :=
    map (fun x => (queueId x, status x))
        (filter (referencesObject project object type)
                (items (itemStore db))) in
  let queueNamesAndIds := filter (inProject project) (queues db) in
  let referencedItemsMap := newMap referencedItems in
  (map (fun q => mkQueueStatus (qId q) (qName q)
                               (mapHas (qId q) referencedItemsMap)
                               (mapGet (qId q) referencedItemsMap))
       queueNamesAndIds,
   List.length referencedItemsMap).

(** [queueRouter.byId]; [validate] stands for
    [filterAndValidateDbScoreConfigList].  With no such queue the spread adds
    nothing and [queue?.scoreConfigs ?? []] is empty. *)
Definition byId {V : Type} (validate : list ScoreConfig -> V)
    (project queue : Id) (db : Db) : option AnnotationQueue * V :=
  let found := find (fun q => String.eqb (qId q) queue
                              && String.eqb (qProjectId q) project)
                    (queues db) in
  let wanted := match found with
                | Some q => qScoreConfigs q
                | None => []
                end in
  let configs :=
    filter (fun c => String.eqb (cfgProjectId c) project
                     && existsb (String.eqb (cfgId c)) wanted)
           (scoreConfigs db) in
  (found, validate configs).

(** *** [queueRouter.all] *)

(** [ORDER BY aq.created_at DESC]: a stable insertion sort, newest first. *)
Fixpoint insertNewestFirst (q : AnnotationQueue) (l : list AnnotationQueue)
  : list AnnotationQueue :=
  match l with
  | [] => [q]
  | h :: t => if qCreatedAt h <=? qCreatedAt q then q :: l
              else h :: insertNewestFirst q t
  end.

Definition newestFirst (l : list AnnotationQueue) : list AnnotationQueue :=
  fold_right insertNewestFirst [] l.

(** JavaScript truthiness of an optional number: absent and 0 are falsy. *)
Definition truthy (n : option nat) : bool :=
  match n with
  | Some (S _) => true
  | _ => false
  end.

Definition numberOf (n : option nat) : nat :=
  match n with Some k => k | None => 0%nat end.

(** The [LIMIT] and [OFFSET] fragments: [LIMIT] only when [limit] is truthy,
    [OFFSET page * limit] only when both are. *)
Definition paginate {A} (page limit : option nat) (l : list A) : list A :=
  let afterOffset := if truthy page && truthy limit
                     then skipn (numberOf page * numberOf limit) l
                     else l in
  if truthy limit then firstn (numberOf limit) afterOffset else afterOffset.

(** [SUM(CASE WHEN aqi.status = ... THEN 1 ELSE 0 END)] over the rows joined
    to a queue: [aq.id = aqi.queue_id AND aqi.project_id = projectId]. *)
Definition countItems (project : Id) (st : AnnotationQueueStatus)
    (q : AnnotationQueue) (rows : list AnnotationQueueItem) : nat :=
  List.length
    (filter (fun x => String.eqb (queueId x) (qId q)
                      && String.eqb (projectId x) project
                      && status_eqb (status x) st) rows).

Record QueueRow := mkQueueRow {
  rowId : Id;
  rowName : string;
  rowDescription : option string;
  rowScoreConfigs : list (Id * string * string);
  rowCreatedAt : Time;
  countCompletedItems : nat;
  countPendingItems : nat
}.

(** The raw query of [all], the count and the config lookup, then the
    [map] that replaces each queue's config ids by the configs themselves.
    The grouping key holds the primary key, so every queue is a group of
    its own; [page] and [limit] are optional numbers. *)
Definition all (project : Id) (page limit : option nat) (db : Db)
  : nat * list QueueRow :=
  let queues_ :=
    paginate page limit
      (newestFirst (filter (inProject project) (queues db))) in
  let totalCount := List.length (filter (inProject project) (queues db)) in
  let scoreConfigs_ :=
    filter (fun c => String.eqb (cfgProjectId c) project) (scoreConfigs db) in
  (totalCount,
   map (fun q =>
          mkQueueRow (qId q) (qName q) (qDescription q)
            (map (fun c => (cfgId c, cfgName c, cfgDataType c))
                 (filter (fun c => existsb (String.eqb (cfgId c))
                                           (qScoreConfigs q))
                         scoreConfigs_))
            (qCreatedAt q)
            (countItems project COMPLETED q (items (itemStore db)))
            (countItems project PENDING q (items (itemStore db))))
       queues_).

(** *** Mutations *)

Inductive TRPCCode := FORBIDDEN | CONFLICT | INTERNAL_SERVER_ERROR.

(** The error classes, as for the item router: [LangfuseNotFoundError] is
    not a [TRPCError]; [PrismaError] carries the client's code (P2002 unique
    violation, P2003 foreign key, P2025 record not found). *)
Inductive Error :=
| TRPCError (code : TRPCCode) (message : string)
| LangfuseNotFoundError (message : string)
| PrismaError (code : string).

Inductive Outcome (A : Type) :=
| Return (a : A)
| Throw (e : Error).
Arguments Return {A} a.
Arguments Throw {A} e.

Definition Prog (A : Type) := Db -> Outcome A * Db.

Definition ret {A} (a : A) : Prog A := fun db => (Return a, db).
Definition throw {A} (e : Error) : Prog A := fun db => (Throw e, db).

Definition bind {A B} (m : Prog A) (k : A -> Prog B) : Prog B :=
  fun db => match m db with
            | (Return a, db') => k a db'
            | (Throw e, db') => (Throw e, db')
            end.

Definition tryCatch {A} (m : Prog A) (h : Error -> Prog A) : Prog A :=
  fun db => match m db with
            | (Return a, db') => (Return a, db')
            | (Throw e, db') => h e db'
            end.

Notation "x <- m ;; k" := (bind m (fun x => k))
  (at level 61, m at next level, right associativity) : queue_scope.
Notation "m ;;; k" := (bind m (fun _ => k))
  (at level 61, right associativity) : queue_scope.
Local Open Scope queue_scope.

Definition rethrowOrWrap {A} (message : string) (error : Error) : Prog A :=
  match error with
  | TRPCError _ _ => throw error
  | _ => throw (TRPCError INTERNAL_SERVER_ERROR message)
  end.

Definition throwIfNoProjectAccess (session : Session) (project : Id)
    (scope : string) : Prog unit :=
  if hasAccess session project scope then ret tt
  else throw (TRPCError FORBIDDEN
                "User does not have access to this resource or action").

Definition auditLog (e : QueueAudit) : Prog unit :=
  fun db => (Return tt,
             mkDb (queues db) (scoreConfigs db) (queueAuditLogs db ++ [e])
                  (itemStore db)).

(** Modelled from the spec: the unique keys of the queue table.  [id] is
    the primary key; queue naming and uniqueness are "handled by the
    external store's constraints", so a name is unique within its project. *)
Definition queueConflicts (a b : AnnotationQueue) : bool :=
  String.eqb (qId a) (qId b)
  || (String.eqb (qProjectId a) (qProjectId b)
      && String.eqb (qName a) (qName b)).

Definition byQueueId (queue project : Id) (q : AnnotationQueue) : bool :=
  String.eqb (qId q) queue && String.eqb (qProjectId q) project.

Definition queueFindFirst (where_ : AnnotationQueue -> bool)
  : Prog (option AnnotationQueue) :=
  fun db => (Return (find where_ (queues db)), db).

Definition queueCreate (d : AnnotationQueue) : Prog AnnotationQueue :=
  fun db => if existsb (queueConflicts d) (queues db)
            then (Throw (PrismaError "P2002"), db)
            else (Return d, withQueues db (queues db ++ [d])).

(** [update] on the row with the given id: the new row must not clash with
    any other row. *)
Definition queueUpdate (queue project : Id)
    (data : AnnotationQueue -> AnnotationQueue) : Prog AnnotationQueue :=
  fun db =>
    match find (byQueueId queue project) (queues db) with
    | None => (Throw (PrismaError "P2025"), db)
    | Some r =>
        if existsb (fun o => negb (String.eqb (qId o) (qId r))
                             && queueConflicts (data r) o) (queues db)
        then (Throw (PrismaError "P2002"), db)
        else (Return (data r),
              withQueues db (map (fun q => if byQueueId queue project q
                                           then data q else q) (queues db)))
    end.

(** What the foreign key of the item table does when a queue with items is
    deleted; the schema decides, so it is a parameter of [delete]. *)
Inductive ReferentialAction := Cascade | Restrict.

Definition queueDelete (fk : ReferentialAction) (queue project : Id)
  : Prog AnnotationQueue :=
  fun db =>
    match find (byQueueId queue project) (queues db) with
    | None => (Throw (PrismaError "P2025"), db)
    | Some r =>
        let remaining :=
          filter (fun q => negb (byQueueId queue project q)) (queues db) in
        let owned := fun x => String.eqb (queueId x) (qId r) in
        match fk with
        | Restrict =>
            if existsb owned (items (itemStore db))
            then (Throw (PrismaError "P2003"), db)
            else (Return r, withQueues db remaining)
        | Cascade =>
            (Return r,
             mkDb remaining (scoreConfigs db) (queueAuditLogs db)
                  (withItems (itemStore db)
                             (filter (fun x => negb (owned x))
                                     (items (itemStore db)))))
        end
    end.

(** The optional [description] of the input: [None] when the field is
    absent ([undefined]), [Some None] for [null].  On [create] an absent
    field is stored as null; on [update] it leaves the column alone. *)
Definition storedDescription (description : option (option string))
    (current : option string) : option string :=
  match description with
  | Some d => d
  | None => current
  end.

(** [newId] and [now] are the defaults the store gives [id] and
    [createdAt]. *)
Definition create (session : Session) (project : Id) (name : string)
    (description : option (option string)) (configs : list Id)
    (newId : Id) (now : Time) : Prog AnnotationQueue :=
  tryCatch
    (throwIfNoProjectAccess session project "annotationQueues:CUD" ;;;
     existingQueue <- queueFindFirst
                        (fun q => String.eqb (qProjectId q) project
                                  && String.eqb (qName q) name) ;;
     match existingQueue with
     | Some _ =>
         throw (TRPCError CONFLICT
                  "A queue with this name already exists in the project")
     | None =>
         queue <- queueCreate (mkQueue newId name
                                       (storedDescription description None)
                                       configs project now) ;;
         auditLog (mkQueueAudit (qId queue) "create" (userId session)
                                None (Some queue)) ;;;
         ret queue
     end)
    (rethrowOrWrap "Creating annotation queue failed.").

Definition setQueueData (name : string)
    (description : option (option string))
    (configs : list Id) (q : AnnotationQueue) : AnnotationQueue :=
  mkQueue (qId q) name (storedDescription description (qDescription q))
          configs (qProjectId q) (qCreatedAt q).

Definition update (session : Session) (project queue : Id) (name : string)
    (description : option (option string)) (configs : list Id)
  : Prog AnnotationQueue :=
  tryCatch
    (throwIfNoProjectAccess session project "annotationQueues:CUD" ;;;
     found <- queueFindFirst (byQueueId queue project) ;;
     match found with
     | None => throw (LangfuseNotFoundError "Queue not found in project")
     | Some q =>
         updatedQueue <- queueUpdate queue project
                           (setQueueData name description configs) ;;
         auditLog (mkQueueAudit (qId q) "update" (userId session)
                                (Some q) (Some updatedQueue)) ;;;
         ret updatedQueue
     end)
    (rethrowOrWrap "Updating annotation queue failed.").

Definition delete (fk : ReferentialAction) (session : Session)
    (project queue : Id) : Prog AnnotationQueue :=
  tryCatch
    (throwIfNoProjectAccess session project "annotationQueues:CUD" ;;;
     q <- queueDelete fk queue project ;;
     auditLog (mkQueueAudit (qId q) "delete" (userId session)
                            (Some q) None) ;;;
     ret q)
    (rethrowOrWrap "Deleting annotation queue failed.").

(** Queue ids are unique; names are unique within a project. *)
Definition uniqueQueueIds (qs : list AnnotationQueue) : Prop :=
  NoDup (map qId qs).

Definition uniqueNames (qs : list AnnotationQueue) : Prop :=
  ForallOrdPairs (fun a b => qProjectId a = qProjectId b ->
                             qName a <> qName b) qs.

End Queues.

(* ================================================================== *)
(** * Properties *)

(** ** Equality tests *)

Lemma objectType_eqb_eq a b : objectType_eqb a b = true <-> a = b.
Proof. destruct a, b; simpl; split; intro H; congruence. Qed.

Lemma status_eqb_eq a b : status_eqb a b = true <-> a = b.
Proof. destruct a, b; simpl; split; intro H; congruence. Qed.

Lemma objectType_eqb_refl a : objectType_eqb a a = true.
Proof. now destruct a. Qed.

Lemma withItems_same s : withItems s (items s) = s.
Proof. now destruct s. Qed.

Lemma map_if_false {A} (f : A -> bool) (g : A -> A) (l : list A) :
  (forall x, In x l -> f x = false) ->
  map (fun x => if f x then g x else x) l = l.
Proof.
  induction l as [|a l IH]; simpl; intro H; [reflexivity|].
  rewrite (H a (or_introl eq_refl)), IH; auto.
Qed.

Lemma filter_none {A} (f : A -> bool) (l : list A) :
  (forall x, In x l -> f x = false) -> filter f l = [].
Proof.
  induction l as [|a l IH]; simpl; intro H; [reflexivity|].
  rewrite (H a (or_introl eq_refl)); auto.
Qed.

(** A split of a filtered list lifts to a split of the list. *)
Lemma filter_split {A} (f : A -> bool) (l : list A) :
  forall a x b, filter f l = a ++ x :: b ->
  exists pre post, l = pre ++ x :: post /\ filter f pre = a
                   /\ filter f post = b /\ f x = true.
Proof.
  induction l as [|y l IH]; intros a x b H; simpl in H.
  - destruct a; discriminate.
  - destruct (f y) eqn:Fy.
    + destruct a as [|a0 a]; simpl in H; injection H as Hy Hl.
      * subst y b. exists [], l. simpl. auto.
      * subst a0. destruct (IH _ _ _ Hl) as (pre & post & -> & Hp & Hq & Hx).
        exists (y :: pre), post. simpl. rewrite Fy, Hp. auto.
    + destruct (IH _ _ _ H) as (pre & post & -> & Hp & Hq & Hx).
      exists (y :: pre), post. simpl. rewrite Fy. auto.
Qed.

(** ** The ordered [findFirst] *)

Lemma firstByCreatedAt_none rows :
  firstByCreatedAt rows = None -> rows = [].
Proof.
  destruct rows as [|x tl]; simpl; [reflexivity|].
  destruct (firstByCreatedAt tl); [destruct (_ <=? _)|]; discriminate.
Qed.

(** The row returned is the first of the oldest: rows before it are strictly
    younger, rows after it are not older. *)
Lemma firstByCreatedAt_split rows x :
  firstByCreatedAt rows = Some x ->
  exists pre post, rows = pre ++ x :: post
    /\ (forall y, In y pre -> createdAt x < createdAt y)
    /\ (forall y, In y post -> createdAt x <= createdAt y).
Proof.
  revert x. induction rows as [|a tl IH]; simpl; intros x H; [discriminate|].
  destruct (firstByCreatedAt tl) as [y|] eqn:E.
  - destruct (IH y eq_refl) as (pre & post & -> & Hpre & Hpost).
    destruct (createdAt a <=? createdAt y) eqn:C; inversion H; subst.
    + apply Z.leb_le in C. exists [], (pre ++ y :: post). simpl.
      repeat split; [tauto|]. intros z Hz. apply in_app_or in Hz.
      destruct Hz as [Hz|[<-|Hz]]; [specialize (Hpre z Hz)|
                                    |specialize (Hpost z Hz)]; lia.
    + apply Z.leb_gt in C. exists (a :: pre), post. simpl.
      repeat split; auto. intros z [<-|Hz]; auto.
  - apply firstByCreatedAt_none in E. subst. inversion H; subst.
    exists [], []. simpl. repeat split; tauto.
Qed.


(** ** Updating one row by its primary key *)

Lemma byIdInProject_other i project y :
  id y <> i -> byIdInProject i project y = false.
Proof.
  intro H. unfold byIdInProject.
  apply String.eqb_neq in H. now rewrite H.
Qed.

Lemma update_by_id_split (g : AnnotationQueueItem -> AnnotationQueueItem)
    project pre x post :
  uniqueIds (pre ++ x :: post) ->
  projectId x = project ->
  map (fun y => if byIdInProject (id x) project y then g y else y)
      (pre ++ x :: post)
  = pre ++ g x :: post.
Proof.
  unfold uniqueIds. intros U P. rewrite map_app in U. simpl in U.
  apply NoDup_remove_2 in U.
  rewrite map_app. simpl. f_equal; [|f_equal].
  - apply map_if_false. intros y Hy. apply byIdInProject_other.
    intro E. apply U, in_or_app. left. rewrite <- E. now apply in_map.
  - unfold byIdInProject. now rewrite String.eqb_refl, P, String.eqb_refl.
  - apply map_if_false. intros y Hy. apply byIdInProject_other.
    intro E. apply U, in_or_app. right. rewrite <- E. now apply in_map.
Qed.

(** ** [next], one call at a time *)

Lemma nextWhere_fields queue project fiveMinutesAgo x :
  nextWhere queue project fiveMinutesAgo x = true <->
  queueId x = queue /\ projectId x = project /\ status x = PENDING
  /\ match editStartTime x with
     | None => True
     | Some t => t < fiveMinutesAgo
     end.
Proof.
  unfold nextWhere. rewrite !andb_true_iff, !String.eqb_eq, status_eqb_eq.
  destruct (editStartTime x); [rewrite Z.ltb_lt|]; tauto.
Qed.

Lemma lookupParent_total project x s :
  exists parent,
    lookupParent project x s = (Return (Some (mkNextItem x parent)), s).
Proof.
  unfold lookupParent.
  destruct (objectType_eqb (objectType x) OBSERVATION);
    unfold bind, observationFindUnique, ret; eauto.
Qed.

(** The first candidate in [createdAt] order, located in the table. *)
Lemma first_candidate_split queue project now rows x :
  firstByCreatedAt (candidates queue project now rows) = Some x ->
  exists pre post,
    rows = pre ++ x :: post
    /\ nextWhere queue project (now - LEASE_MS) x = true
    /\ (forall y, In y pre ->
          nextWhere queue project (now - LEASE_MS) y = true ->
          createdAt x < createdAt y)
    /\ (forall y, In y post ->
          nextWhere queue project (now - LEASE_MS) y = true ->
          createdAt x <= createdAt y).
Proof.
  intro F. unfold candidates in F.
  destruct (firstByCreatedAt_split _ _ F) as (a & b & Hs & Ha & Hb).
  destruct (filter_split _ _ _ _ _ Hs) as (pre & post & Hi & Hpre & Hpost & Cx).
  exists pre, post. repeat split; auto.
  - intros z Hz Cz. apply Ha. rewrite <- Hpre. now apply filter_In.
  - intros z Hz Cz. apply Hb. rewrite <- Hpost. now apply filter_In.
Qed.

Lemma first_candidate_exists queue project now rows y :
  In y rows -> nextWhere queue project (now - LEASE_MS) y = true ->
  exists x, firstByCreatedAt (candidates queue project now rows) = Some x.
Proof.
  intros Hy Cy.
  destruct (firstByCreatedAt (candidates queue project now rows)) as [x|] eqn:F;
    [now exists x|].
  apply firstByCreatedAt_none in F.
  assert (H : In y (candidates queue project now rows)) by now apply filter_In.
  rewrite F in H. destruct H.
Qed.

Section Next.
Variable session : Session.
Variables queue project : Id.
Variable now : Time.

Lemma next_none s :
  (forall y, In y (items s) ->
             nextWhere queue project (now - LEASE_MS) y = false) ->
  next session queue project now s = (Return None, s).
Proof.
  intro H. unfold next, bind, findFirstOrderByCreatedAt.
  now rewrite (filter_none _ _ H).
Qed.

Lemma candidates_none s :
  candidates queue project now (items s) = [] ->
  next session queue project now s = (Return None, s).
Proof.
  intro F. apply next_none. intros y Hy.
  destruct (nextWhere queue project (now - LEASE_MS) y) eqn:C; [|reflexivity].
  assert (H : In y (candidates queue project now (items s)))
    by now apply filter_In.
  rewrite F in H. destruct H.
Qed.

Lemma next_found s x :
  firstByCreatedAt (candidates queue project now (items s)) = Some x ->
  exists parent,
    next session queue project now s =
    (Return (Some (mkNextItem x parent)),
     withItems s (claimRow (id x) project now (userId session) (items s))).
Proof.
  intro F. unfold next, bind, findFirstOrderByCreatedAt.
  unfold candidates in F. rewrite F. unfold prismaUpdate.
  destruct (firstByCreatedAt_split _ _ F) as (a & b & Hs & _).
  assert (Hx : In x (filter (nextWhere queue project (now - LEASE_MS))
                            (items s)))
    by (rewrite Hs; apply in_or_app; right; now left).
  apply filter_In in Hx. destruct Hx as [Hin Hc].
  apply nextWhere_fields in Hc. destruct Hc as (_ & Hp & _).
  destruct (find (byIdInProject (id x) project) (items s)) eqn:E.
  - fold (claimRow (id x) project now (userId session) (items s)).
    destruct (lookupParent_total project x
                (withItems s (claimRow (id x) project now (userId session)
                                       (items s))))
      as [parent ->].
    now exists parent.
  - pose proof (find_none _ _ E x Hin) as N. unfold byIdInProject in N.
    now rewrite String.eqb_refl, Hp, String.eqb_refl in N.
Qed.

(** [next] always returns, with an item when there is a candidate and with
    none otherwise; run without overlap it never throws. *)
Lemma next_returns s :
  exists r s', next session queue project now s = (Return r, s').
Proof.
  destruct (firstByCreatedAt (candidates queue project now (items s)))
    as [x|] eqn:F.
  - destruct (next_found s x F) as [parent ->]. eauto.
  - apply firstByCreatedAt_none in F. exists None, s.
    now apply candidates_none.
Qed.

(** What a call that hands out an item did. *)
Lemma next_some_inv s r s' :
  next session queue project now s = (Return (Some r), s') ->
  firstByCreatedAt (candidates queue project now (items s)) = Some (item r)
  /\ s' = withItems s (claimRow (id (item r)) project now (userId session)
                                (items s)).
Proof.
  intro H.
  destruct (firstByCreatedAt (candidates queue project now (items s)))
    as [x|] eqn:F.
  - destruct (next_found s x F) as [parent E]. rewrite E in H.
    inversion H; subst. simpl. auto.
  - apply firstByCreatedAt_none in F.
    rewrite (candidates_none s F) in H. discriminate.
Qed.

End Next.

(* ------------------------------------------------------------------ *)
(** ** Lease expiry *)

(** C3, as amended.  The lease lasts five minutes and its boundary is
    exclusive: a pending row of the queue leased at [T] is never handed out
    at a [now] with [now - T <= LEASE_MS], and is a candidate again (so a
    row no younger than it is handed out) once [now - T > LEASE_MS]; a row
    with no lease start is always a candidate. *)
Theorem lease_expiry_boundary session queue project now s x :
  In x (items s) ->
  queueId x = queue -> projectId x = project -> status x = PENDING ->
  LEASE_MS = 300000
  /\ (forall T, editStartTime x = Some T -> now - T <= LEASE_MS ->
        nextWhere queue project (now - LEASE_MS) x = false
        /\ forall r s', next session queue project now s
                        = (Return (Some r), s') -> item r <> x)
  /\ (forall T, editStartTime x = Some T -> now - T > LEASE_MS ->
        nextWhere queue project (now - LEASE_MS) x = true
        /\ exists r s', next session queue project now s
                        = (Return (Some r), s')
                        /\ createdAt (item r) <= createdAt x)
  /\ (editStartTime x = None ->
        nextWhere queue project (now - LEASE_MS) x = true
        /\ exists r s', next session queue project now s
                        = (Return (Some r), s')
                        /\ createdAt (item r) <= createdAt x).
Proof.
  intros Hin Hq Hp Hst.
  assert (Cand : nextWhere queue project (now - LEASE_MS) x = true ->
                 exists r s', next session queue project now s
                              = (Return (Some r), s')
                              /\ createdAt (item r) <= createdAt x).
  { intro C.
    destruct (firstByCreatedAt
                (filter (nextWhere queue project (now - LEASE_MS)) (items s)))
      as [y|] eqn:F.
    - destruct (next_found session queue project now s y F) as [parent E].
      exists (mkNextItem y parent). eexists. split; [exact E|]. simpl.
      destruct (firstByCreatedAt_split _ _ F) as (a & b & Hs & Ha & Hb).
      assert (Hx : In x (filter (nextWhere queue project (now - LEASE_MS))
                                (items s))) by now apply filter_In.
      rewrite Hs in Hx. apply in_app_or in Hx.
      destruct Hx as [Hx|[<-|Hx]];
        [specialize (Ha x Hx)| |specialize (Hb x Hx)]; lia.
    - apply firstByCreatedAt_none in F.
      assert (Hx : In x (filter (nextWhere queue project (now - LEASE_MS))
                                (items s))) by now apply filter_In.
      rewrite F in Hx. destruct Hx. }
  split; [reflexivity|]. split; [|split].
  - intros T HT Hfresh.
    assert (N : nextWhere queue project (now - LEASE_MS) x = false).
    { unfold nextWhere. rewrite HT.
      replace (T <? now - LEASE_MS) with false
        by (symmetry; apply Z.ltb_ge; lia).
      now rewrite andb_false_r. }
    split; [exact N|]. intros r s' E Hr.
    apply next_some_inv in E. destruct E as [F _]. unfold candidates in F.
    destruct (firstByCreatedAt_split _ _ F) as (a & b & Hs & _).
    assert (Hy : In (item r) (filter (nextWhere queue project (now - LEASE_MS))
                                     (items s)))
      by (rewrite Hs; apply in_or_app; right; now left).
    apply filter_In in Hy. rewrite Hr in Hy. destruct Hy as [_ Hy]. congruence.
  - intros T HT Hexp.
    assert (C : nextWhere queue project (now - LEASE_MS) x = true).
    { apply nextWhere_fields. rewrite HT. repeat split; auto. lia. }
    split; auto.
  - intro HN.
    assert (C : nextWhere queue project (now - LEASE_MS) x = true).
    { apply nextWhere_fields. rewrite HN. repeat split; auto. }
    split; auto.
Qed.

Lemma lease_expiry_boundary_witness :
  let x := Sample.leased "i1" "o1" 10 0 in
  let s := Sample.store [x] in
  LEASE_MS = 300000
  /\ nextWhere "q" "p" (300000 - LEASE_MS) x = false
  /\ nextWhere "q" "p" (300001 - LEASE_MS) x = true.
Proof.
  intros x s.
  destruct (lease_expiry_boundary Sample.alice "q" "p" 300000 s x
              (or_introl eq_refl) eq_refl eq_refl eq_refl)
    as (HL & Hfresh & _).
  destruct (lease_expiry_boundary Sample.alice "q" "p" 300001 s x
              (or_introl eq_refl) eq_refl eq_refl eq_refl)
    as (_ & _ & Hexp & _).
  split; [exact HL|]. split.
  - apply (Hfresh 0 eq_refl). vm_compute. discriminate.
  - apply (Hexp 0 eq_refl). reflexivity.
Defined.

(** C3 as stated fails at the boundary: a row leased at 0 is not handed out
    at [now = 0 + LEASE_MS], although [now - 0 >= LEASE_MS]. *)
Lemma lease_boundary_not_inclusive :
  let x := Sample.leased "i1" "o1" 10 0 in
  let s := Sample.store [x] in
  300000 - 0 >= LEASE_MS
  /\ nextWhere "q" "p" (300000 - LEASE_MS) x = false
  /\ next Sample.alice "q" "p" 300000 s = (Return None, s).
Proof. repeat split. vm_compute. discriminate. Qed.

(* ------------------------------------------------------------------ *)
(** ** Selection order *)

(** C4, as amended.  Whenever some row is claimable, [next] hands out a
    claimable row of smallest [createdAt]: claimable rows the store yields
    before it are strictly younger, those after it are not older.  Rows of
    equal [createdAt] are not ordered by [id]; the first one yielded wins. *)
Theorem next_selects_oldest session queue project now s :
  (exists y, In y (items s)
             /\ nextWhere queue project (now - LEASE_MS) y = true) ->
  exists r s' pre post,
    next session queue project now s = (Return (Some r), s')
    /\ items s = pre ++ item r :: post
    /\ nextWhere queue project (now - LEASE_MS) (item r) = true
    /\ (forall y, In y pre ->
          nextWhere queue project (now - LEASE_MS) y = true ->
          createdAt (item r) < createdAt y)
    /\ (forall y, In y post ->
          nextWhere queue project (now - LEASE_MS) y = true ->
          createdAt (item r) <= createdAt y).
Proof.
  intros (y & Hy & Cy).
  destruct (first_candidate_exists queue project now (items s) y Hy Cy)
    as [x F].
  destruct (next_found session queue project now s x F) as [parent E].
  destruct (first_candidate_split _ _ _ _ _ F) as (pre & post & H).
  exists (mkNextItem x parent). eexists. exists pre, post.
  split; [exact E|exact H].
Qed.

Lemma next_selects_oldest_witness :
  exists r s',
    next Sample.alice "q" "p" 1000
         (Sample.store [Sample.pending "i1" "A" 10;
                        Sample.leased "i2" "B" 5 (1000 - 400000)])
    = (Return (Some r), s')
    /\ id (item r) = "i2".
Proof.
  destruct (next_selects_oldest Sample.alice "q" "p" 1000
              (Sample.store [Sample.pending "i1" "A" 10;
                             Sample.leased "i2" "B" 5 (1000 - 400000)]))
    as (r & s' & pre & post & E & _).
  - exists (Sample.pending "i1" "A" 10). split; [now left|reflexivity].
  - exists r, s'. split; [exact E|].
    vm_compute in E. now inversion E.
Defined.

(** C4 as stated fails on ties: two claimable rows share [createdAt = 10];
    the row handed out is ["b"], although ["a"] is the smaller [id]. *)
Lemma next_tie_not_by_id :
  let a := Sample.pending "a" "A" 10 in
  let b := Sample.pending "b" "B" 10 in
  let s := Sample.store [b; a] in
  nextWhere "q" "p" (1000 - LEASE_MS) a = true
  /\ nextWhere "q" "p" (1000 - LEASE_MS) b = true
  /\ createdAt a = createdAt b
  /\ String.ltb (id a) (id b) = true
  /\ exists s', next Sample.alice "q" "p" 1000 s
                = (Return (Some (mkNextItem b None)), s').
Proof. repeat split. eexists. vm_compute. reflexivity. Qed.

(** Three claimable rows of distinct age leave in FIFO order. *)
Example next_fifo_three :
  let s := Sample.store [Sample.pending "i2" "B" 20;
                         Sample.pending "i3" "C" 30;
                         Sample.pending "i1" "A" 10] in
  map (fun o => match o with
                | Return (Some r) => Some (id (item r))
                | _ => None
                end)
      (fst (nextSeq [mkNextCall Sample.alice "q" "p" 1000;
                     mkNextCall Sample.bob "q" "p" 1001;
                     mkNextCall Sample.alice "q" "p" 1002;
                     mkNextCall Sample.bob "q" "p" 1003] s))
  = [Some "i1"; Some "i2"; Some "i3"; None].
Proof. vm_compute. reflexivity. Qed.

(* ------------------------------------------------------------------ *)
(** ** The claim write *)

(** C9.  On a store whose ids are unique, a call that hands out a row
    rewrites that row only: it stays [PENDING], its lease holder becomes the
    caller and its lease start [now], every other field and every other row
    is as before, and nothing else in the store changes. *)
Theorem next_claim_frame session queue project now s r s' :
  uniqueIds (items s) ->
  next session queue project now s = (Return (Some r), s') ->
  exists pre post,
    let x := item r in
    items s = pre ++ x :: post
    /\ items s' =
       pre ++ mkItem (id x) (projectId x) (queueId x) (objectId x)
                     (objectType x) PENDING (Some now)
                     (Some (userId session)) (completedAt x)
                     (annotatorUserId x) (createdAt x) :: post
    /\ status x = PENDING
    /\ observations s' = observations s
    /\ auditLogs s' = auditLogs s.
Proof.
  intros U E. apply next_some_inv in E. destruct E as [F ->].
  unfold candidates in F. unfold claimRow.
  destruct (firstByCreatedAt_split _ _ F) as (a & b & Hs & _).
  destruct (filter_split _ _ _ _ _ Hs) as (pre & post & Hi & _ & _ & Cx).
  apply nextWhere_fields in Cx. destruct Cx as (_ & Hp & Hst & _).
  exists pre, post. simpl. split; [exact Hi|]. split; [|auto].
  rewrite Hi in U |- *. rewrite (update_by_id_split _ _ _ _ _ U Hp).
  unfold setLease. now rewrite Hst.
Qed.

Lemma next_claim_frame_witness :
  let a := Sample.pending "i1" "A" 10 in
  let b := Sample.pending "i2" "B" 20 in
  exists pre post,
    [b; a] = pre ++ a :: post
    /\ [b; setLease 1000 "bob" a] =
       pre ++ mkItem "i1" "p" "q" "A" TRACE PENDING (Some 1000) (Some "bob")
                     None None 10 :: post
    /\ status a = PENDING
    /\ @nil Observation = [] /\ @nil AuditLogEntry = [].
Proof.
  intros a b.
  apply (next_claim_frame Sample.bob "q" "p" 1000
           (Sample.store [b; a]) (mkNextItem a None)
           (Sample.store [b; setLease 1000 "bob" a])).
  - unfold uniqueIds. simpl. repeat constructor; simpl; intuition discriminate.
  - vm_compute. reflexivity.
Defined.

(* ------------------------------------------------------------------ *)
(** ** Completion *)

Lemma completeWhere_setCompleted queue project object type now user x :
  completeWhere queue project object type (setCompleted now user x)
  = completeWhere queue project object type x.
Proof. reflexivity. Qed.

Lemma complete_unfold session project queue object type now s :
  complete session project queue object type now s =
  (Return (List.length (filter (completeWhere queue project object type)
                               (items s))),
   withItems s (map (fun x => if completeWhere queue project object type x
                              then setCompleted now (userId session) x
                              else x) (items s))).
Proof. reflexivity. Qed.

Lemma filter_map_stamp (w : AnnotationQueueItem -> bool)
    (g : AnnotationQueueItem -> AnnotationQueueItem) rows :
  (forall x, w (g x) = w x) ->
  List.length (filter w (map (fun x => if w x then g x else x) rows))
  = List.length (filter w rows).
Proof.
  intro Hw. induction rows as [|a l IH]; simpl; [reflexivity|].
  destruct (w a) eqn:Wa.
  - rewrite Hw, Wa. simpl. now rewrite IH.
  - now rewrite Wa.
Qed.

(** C2, as amended.  [complete] has no condition on [status]: a second
    call on the same (queue, object) matches the same rows again, returns
    the same count as the first, leaves them [COMPLETED] and stamps them
    with the second call's time and user, exactly as if the first call had
    not happened. *)
Theorem complete_twice_restamps session1 session2 project queue object type
    t1 t2 s :
  let n := List.length (filter (completeWhere queue project object type)
                               (items s)) in
  let s1 := snd (complete session1 project queue object type t1 s) in
  let s2 := snd (complete session2 project queue object type t2 s1) in
  fst (complete session1 project queue object type t1 s) = Return n
  /\ fst (complete session2 project queue object type t2 s1) = Return n
  /\ s2 = snd (complete session2 project queue object type t2 s)
  /\ forall x, In x (items s2) ->
       completeWhere queue project object type x = true ->
       status x = COMPLETED /\ completedAt x = Some t2
       /\ annotatorUserId x = Some (userId session2).
Proof.
  intros n s1 s2. subst n s1 s2. rewrite !complete_unfold. simpl.
  split; [reflexivity|]. split; [|split].
  - f_equal. apply filter_map_stamp. intro x. apply completeWhere_setCompleted.
  - unfold withItems. simpl. f_equal. rewrite map_map. apply map_ext.
    intro x. destruct (completeWhere queue project object type x) eqn:W.
    + now rewrite completeWhere_setCompleted, W.
    + now rewrite W.
  - intros x Hx Wx. rewrite map_map in Hx. apply in_map_iff in Hx.
    destruct Hx as (y & <- & _).
    destruct (completeWhere queue project object type y) eqn:W.
    + rewrite completeWhere_setCompleted, W. simpl. auto.
    + rewrite W in Wx |- *. congruence.
Qed.

(** C2 as stated fails: the second [complete] reports one affected row, not
    zero, and replaces the first call's [completedAt] and completer. *)
Lemma complete_second_call_restamps :
  let s := Sample.store [Sample.pending "i1" "A" 10] in
  let s1 := snd (complete Sample.alice "p" "q" "A" TRACE 100 s) in
  items s1 = [setCompleted 100 "alice" (Sample.pending "i1" "A" 10)]
  /\ complete Sample.bob "p" "q" "A" TRACE 200 s1
     = (Return 1%nat,
        Sample.store [setCompleted 200 "bob" (Sample.pending "i1" "A" 10)])
  /\ setCompleted 200 "bob" (Sample.pending "i1" "A" 10)
     <> setCompleted 100 "alice" (Sample.pending "i1" "A" 10).
Proof. repeat split. vm_compute. discriminate. Qed.

(* ------------------------------------------------------------------ *)
(** ** No matching row *)

(** C8.  When every row of the queue is completed or under a lease that has
    not run out (in particular when the queue is empty), [next] returns
    "no item" as a normal result and leaves the store alone; when no row
    matches (queue, object), [complete] returns the count zero and leaves
    the store alone.  Neither throws. *)
Theorem no_match_is_not_an_error session queue project object type now s :
  ((forall x, In x (items s) -> queueId x = queue -> projectId x = project ->
      status x = COMPLETED
      \/ exists T, editStartTime x = Some T /\ now - T <= LEASE_MS) ->
   next session queue project now s = (Return None, s))
  /\ ((forall x, In x (items s) ->
         completeWhere queue project object type x = false) ->
      complete session project queue object type now s = (Return 0%nat, s)).
Proof.
  split; intro H.
  - apply next_none. intros y Hy.
    destruct (nextWhere queue project (now - LEASE_MS) y) eqn:C; [|reflexivity].
    apply nextWhere_fields in C. destruct C as (Hq & Hp & Hst & Hl).
    destruct (H y Hy Hq Hp) as [Hc|(T & HT & Hfresh)]; [congruence|].
    rewrite HT in Hl. lia.
  - rewrite complete_unfold, (filter_none _ _ H), (map_if_false _ _ _ H).
    now rewrite withItems_same.
Qed.

Lemma no_match_is_not_an_error_witness :
  let s := Sample.store [setCompleted 50 "bob" (Sample.pending "i1" "A" 10);
                         Sample.leased "i2" "B" 20 900] in
  next Sample.alice "q" "p" 1000 s = (Return None, s)
  /\ complete Sample.alice "p" "q" "C" TRACE 1000 s = (Return 0%nat, s).
Proof.
  intro s.
  destruct (no_match_is_not_an_error Sample.alice "q" "p" "C" TRACE 1000 s)
    as [Hn Hc].
  split.
  - apply Hn. intros x [<-|[<-|[]]] _ _.
    + now left.
    + right. exists 900. split; [reflexivity|]. vm_compute. discriminate.
  - apply Hc. intros x [<-|[<-|[]]]; reflexivity.
Defined.

(* ------------------------------------------------------------------ *)
(** ** Mutual exclusion *)

(** A call scheduled alone performs exactly [next]. *)
Lemma next_as_steps c s :
  runSchedule [0%nat; 0%nat; 0%nat] [(c, AtFindFirst)] s =
  ([(c, Finished (fst (next (callSession c) (callQueue c) (callProject c)
                            (callNow c) s)))],
   snd (next (callSession c) (callQueue c) (callProject c) (callNow c) s)).
Proof.
  unfold next, bind. simpl. unfold findFirstOrderByCreatedAt.
  destruct (firstByCreatedAt _) as [x|]; simpl; [|reflexivity].
  destruct (prismaUpdate _ _ s) as [[u|e] s1]; simpl; [|reflexivity].
  destruct (lookupParent (callProject c) x s1) as [r s2]. reflexivity.
Qed.

(** C1 as stated fails: the queue holds two pending, unleased rows and two
    calls overlap, each reading before either writes; both are handed the
    row ["i1"]. *)
Lemma next_overlap_same_item :
  let rows := [Sample.pending "i1" "A" 10; Sample.pending "i2" "B" 20] in
  let calls := startAll [mkNextCall Sample.alice "q" "p" 1000;
                         mkNextCall Sample.bob "q" "p" 1001] in
  let final := fst (runSchedule [0; 1; 0; 1; 0; 1]%nat calls
                                (Sample.store rows)) in
  List.length (pendingUnleased "q" "p" rows) = 2%nat
  /\ map snd final
     = [Finished (Return (Some (mkNextItem (Sample.pending "i1" "A" 10) None)));
        Finished (Return (Some (mkNextItem (Sample.pending "i1" "A" 10) None)))]
  /\ claimedIds final = ["i1"; "i1"]
  /\ ~ NoDup (claimedIds final).
Proof.
  repeat split. vm_compute. intro H. inversion H as [|? ? N _]; subst.
  apply N. now left.
Qed.

Lemma uniqueIds_same_id pre x post y :
  uniqueIds (pre ++ x :: post) ->
  In y (pre ++ x :: post) -> id y = id x -> y = x.
Proof.
  unfold uniqueIds. rewrite map_app. simpl. intros U Hy E.
  apply NoDup_remove_2 in U.
  apply in_app_or in Hy. destruct Hy as [Hy|[Hy|Hy]]; [|now symmetry|].
  - exfalso. apply U, in_or_app. left. rewrite <- E. now apply in_map.
  - exfalso. apply U, in_or_app. right. rewrite <- E. now apply in_map.
Qed.

Lemma pendingUnleased_claimable queue project fiveMinutesAgo rows x :
  In x (pendingUnleased queue project rows) ->
  In x rows /\ nextWhere queue project fiveMinutesAgo x = true.
Proof.
  unfold pendingUnleased. rewrite filter_In. intros [Hin H].
  split; [exact Hin|]. unfold nextWhere.
  destruct (editStartTime x); [now rewrite andb_false_r in H|exact H].
Qed.

(** Leasing one row takes at most one row out of the unleased ones. *)
Lemma pendingUnleased_after_lease queue project pre x post now user :
  (List.length (pendingUnleased queue project (pre ++ x :: post)) <=
   S (List.length (pendingUnleased queue project
                     (pre ++ setLease now user x :: post))))%nat.
Proof.
  unfold pendingUnleased. rewrite !filter_app, !length_app. simpl.
  rewrite andb_false_r.
  match goal with |- context [if ?b then _ else _] => destruct b end;
    simpl; lia.
Qed.

Section Sequential.
Variables queue project : Id.
Variable lo : Time.

Lemma claimable_not_held now x :
  now <= lo + LEASE_MS ->
  nextWhere queue project (now - LEASE_MS) x = true ->
  ~ heldSince lo x.
Proof.
  intros Hn C (T & HT & Hlo). apply nextWhere_fields in C.
  destruct C as (_ & _ & _ & Hl). rewrite HT in Hl. lia.
Qed.

(** One call on a store with an unleased row: the row handed out was not
    held, and afterwards it is. *)
Lemma next_step_seq c s :
  uniqueIds (items s) -> inWindow queue project lo c ->
  (1 <= List.length (pendingUnleased queue project (items s)))%nat ->
  exists x parent pre post,
    next (callSession c) (callQueue c) (callProject c) (callNow c) s
    = (Return (Some (mkNextItem x parent)),
       withItems s (pre ++ setLease (callNow c) (userId (callSession c)) x
                        :: post))
    /\ items s = pre ++ x :: post
    /\ ~ heldSince lo x.
Proof.
  intros U (Hq & Hp & Hlo & Hhi) N. rewrite Hq, Hp.
  destruct (pendingUnleased queue project (items s)) as [|y l] eqn:E;
    [simpl in N; lia|].
  assert (Hy : In y (pendingUnleased queue project (items s)))
    by (rewrite E; now left).
  apply (pendingUnleased_claimable _ _ (callNow c - LEASE_MS)) in Hy.
  destruct Hy as [Hy Cy].
  destruct (first_candidate_exists queue project (callNow c) (items s) y Hy Cy)
    as [x F].
  destruct (next_found (callSession c) queue project (callNow c) s x F)
    as [parent En].
  destruct (first_candidate_split _ _ _ _ _ F) as (pre & post & Hi & Cx & _).
  apply nextWhere_fields in Cx as Fx. destruct Fx as (_ & Hpx & _).
  unfold claimRow in En. rewrite Hi in En, U.
  rewrite (update_by_id_split _ _ _ _ _ U Hpx) in En.
  exists x, parent, pre, post. rewrite En.
  repeat split; auto.
  now apply (claimable_not_held (callNow c)).
Qed.

Lemma next_sequential cs : forall s,
  uniqueIds (items s) ->
  (forall c, In c cs -> inWindow queue project lo c) ->
  (List.length cs <=
   List.length (pendingUnleased queue project (items s)))%nat ->
  exists rs,
    fst (nextSeq cs s) = map (fun r => Return (Some r)) rs
    /\ NoDup (map (fun r => id (item r)) rs)
    /\ forall r, In r rs ->
         exists y, In y (items s) /\ id y = id (item r)
                   /\ ~ heldSince lo y.
Proof.
  induction cs as [|c rest IH]; intros s U W N.
  - exists []. simpl. repeat split; [constructor|intros r []].
  - simpl in N.
    destruct (next_step_seq c s U (W c (or_introl eq_refl)))
      as (x & parent & pre & post & En & Hi & Hx); [lia|].
    simpl. rewrite En.
    set (x' := setLease (callNow c) (userId (callSession c)) x) in *.
    set (s1 := withItems s (pre ++ x' :: post)) in *.
    assert (U1 : uniqueIds (items s1)).
    { unfold uniqueIds in *. simpl. rewrite Hi in U.
      rewrite map_app in *. exact U. }
    assert (N1 : (List.length rest <=
                  List.length (pendingUnleased queue project (items s1)))%nat).
    { pose proof (pendingUnleased_after_lease queue project pre x post
                    (callNow c) (userId (callSession c))) as L.
      rewrite <- Hi in L. simpl. fold x' in L. lia. }
    destruct (IH s1 U1 (fun c' H => W c' (or_intror H)) N1)
      as (rs & Ers & Drs & Frs).
    destruct (nextSeq rest s1) as [out s2]. simpl in Ers. subst out.
    assert (Held : heldSince lo x').
    { exists (callNow c). split; [reflexivity|].
      destruct (W c (or_introl eq_refl)) as (_ & _ & Hlo & _). exact Hlo. }
    exists (mkNextItem x parent :: rs). simpl. repeat split.
    + constructor; [|exact Drs]. intro Hin. apply in_map_iff in Hin.
      destruct Hin as (r & Er & Hr).
      destruct (Frs r Hr) as (y & Hy & Ey & Hny). simpl in Hy.
      apply Hny. rewrite Er in Ey.
      now rewrite (uniqueIds_same_id pre x' post y U1 Hy Ey).
    + intros r [<-|Hr].
      * exists x. simpl. rewrite Hi. repeat split; auto.
        apply in_or_app. right. now left.
      * destruct (Frs r Hr) as (y & Hy & Ey & Hny). simpl in Hy.
        exists y. repeat split; auto. rewrite Hi.
        apply in_app_or in Hy. apply in_or_app.
        destruct Hy as [Hy|[Hy|Hy]]; [now left| |right; now right].
        subst y. contradiction.
Qed.

End Sequential.

(** C1, as amended.  Calls that do not overlap are mutually exclusive: on a
    store with unique ids whose queue holds N pending, unleased rows, M <= N
    calls of [next] run one after the other, at times within one lease
    duration of each other, all return an item, and the M items are pairwise
    distinct.  (The read and the claim write are two store operations, so
    nothing of the kind holds for calls that overlap.) *)
Theorem next_sequential_distinct queue project lo cs s :
  uniqueIds (items s) ->
  (forall c, In c cs -> inWindow queue project lo c) ->
  (List.length cs <=
   List.length (pendingUnleased queue project (items s)))%nat ->
  exists rs,
    fst (nextSeq cs s) = map (fun r => Return (Some r)) rs
    /\ List.length rs = List.length cs
    /\ NoDup (map (fun r => id (item r)) rs).
Proof.
  intros U W N.
  destruct (next_sequential queue project lo cs s U W N) as (rs & E & D & _).
  exists rs. repeat split; auto.
  assert (L : List.length (fst (nextSeq cs s)) = List.length cs).
  { clear. revert s. induction cs as [|c rest IH]; intro s; [reflexivity|].
    simpl. destruct (next _ _ _ _ s) as [r s1].
    specialize (IH s1). destruct (nextSeq rest s1). simpl in *.
    now rewrite IH. }
  rewrite E, length_map in L. exact L.
Qed.

Lemma next_sequential_distinct_witness :
  exists rs,
    fst (nextSeq [mkNextCall Sample.alice "q" "p" 1000;
                  mkNextCall Sample.bob "q" "p" 1001]
                 (Sample.store [Sample.pending "i1" "A" 10;
                                Sample.pending "i2" "B" 20]))
    = map (fun r => Return (Some r)) rs
    /\ List.length rs = 2%nat
    /\ NoDup (map (fun r => id (item r)) rs).
Proof.
  apply (next_sequential_distinct "q" "p" 1000).
  - unfold uniqueIds. simpl. repeat constructor; simpl; intuition discriminate.
  - intros c [<-|[<-|[]]]; simpl; repeat split; vm_compute; discriminate.
  - vm_compute. repeat constructor.
Defined.

(* ------------------------------------------------------------------ *)
(** ** Inserting rows *)

Lemma samePair_iff a b :
  samePair a b = true <->
  queueId a = queueId b /\ objectId a = objectId b
  /\ objectType a = objectType b.
Proof.
  unfold samePair.
  rewrite !andb_true_iff, !String.eqb_eq, objectType_eqb_eq. tauto.
Qed.

Lemma pairIs_iff queue object type x :
  pairIs queue object type x = true <->
  queueId x = queue /\ objectId x = object /\ objectType x = type.
Proof.
  unfold pairIs.
  rewrite !andb_true_iff, !String.eqb_eq, objectType_eqb_eq. tauto.
Qed.

Lemma samePair_sym a b : samePair a b = samePair b a.
Proof.
  unfold samePair.
  rewrite (String.eqb_sym (queueId a)), (String.eqb_sym (objectId a)).
  f_equal. now destruct (objectType a), (objectType b).
Qed.

Lemma conflicts_sym a b : conflicts a b = conflicts b a.
Proof.
  unfold conflicts. now rewrite samePair_sym, (String.eqb_sym (id a)).
Qed.

Lemma conflicts_refl a : conflicts a a = true.
Proof. unfold conflicts. now rewrite String.eqb_refl. Qed.

Lemma conflicts_false a b :
  conflicts a b = false -> id a <> id b /\ samePair a b = false.
Proof.
  unfold conflicts. intro H. apply orb_false_iff in H.
  destruct H as [H1 H2]. now apply String.eqb_neq in H1.
Qed.

Lemma violatesUnique_false d rows :
  violatesUnique d rows = false ->
  forall r, In r rows -> conflicts d r = false.
Proof.
  unfold violatesUnique. intros H r Hr.
  destruct (conflicts d r) eqn:C; [|reflexivity].
  assert (E : existsb (conflicts d) rows = true)
    by (apply existsb_exists; eauto).
  congruence.
Qed.

Lemma subseq_length {A} (l l' : list A) :
  subseq l l' -> (List.length l <= List.length l')%nat.
Proof. induction 1; simpl; lia. Qed.

Lemma subseq_map {A B} (f : A -> B) (l l' : list A) :
  subseq l l' -> subseq (map f l) (map f l').
Proof.
  induction 1; simpl;
    [apply subseq_nil | now apply subseq_skip | now apply subseq_take].
Qed.

Lemma subseq_In {A} (l l' : list A) x : subseq l l' -> In x l -> In x l'.
Proof.
  induction 1; simpl; auto.
  intros [->|H']; auto.
Qed.

(** What [createMany] with [skipDuplicates] inserts: a subsequence of the
    batch, appended in order, free of conflicts with the rows already there
    and among themselves. *)
Lemma insertSkipDuplicates_spec data : forall rows,
  exists added,
    insertSkipDuplicates data rows = (rows ++ added, List.length added)
    /\ subseq added data
    /\ (forall a r, In a added -> In r rows -> conflicts a r = false)
    /\ ForallOrdPairs (fun a b => conflicts a b = false) added.
Proof.
  induction data as [|d ds IH]; intro rows; simpl.
  - exists []. rewrite app_nil_r. repeat split; try constructor.
    intros a r [].
  - destruct (violatesUnique d rows) eqn:V.
    + destruct (IH rows) as (added & E & S & Hr & Ha).
      exists added. repeat split; auto. now constructor.
    + destruct (IH (rows ++ [d])) as (added & E & S & Hr & Ha).
      exists (d :: added). rewrite E, <- app_assoc. simpl.
      repeat split; auto.
      * now constructor.
      * intros a r [<-|Hin] Hrow.
        -- now apply (violatesUnique_false d rows).
        -- apply Hr; [exact Hin|]. apply in_or_app. now left.
      * constructor; [|exact Ha]. apply Forall_forall. intros a Hin.
        rewrite conflicts_sym. apply Hr; [exact Hin|].
        apply in_or_app. right. now left.
Qed.

(** Every row of the batch ends up in conflict with a stored row: the one
    that made it be skipped, or itself. *)
Lemma insertSkipDuplicates_covers data : forall rows d,
  In d data ->
  exists r, In r (fst (insertSkipDuplicates data rows))
            /\ conflicts d r = true.
Proof.
  induction data as [|d0 ds IH]; intros rows d Hd; [destruct Hd|].
  assert (Keep : forall rows0 x, In x rows0 ->
                 In x (fst (insertSkipDuplicates ds rows0))).
  { intros rows0 x Hx.
    destruct (insertSkipDuplicates_spec ds rows0) as (added & E & _).
    rewrite E. simpl. apply in_or_app. now left. }
  simpl. destruct (violatesUnique d0 rows) eqn:V.
  - destruct Hd as [->|Hd]; [|now apply IH].
    apply existsb_exists in V. destruct V as (r & Hr & C).
    exists r. split; [now apply Keep|exact C].
  - destruct (insertSkipDuplicates ds (rows ++ [d0])) as [rows' n] eqn:E.
    simpl. destruct Hd as [->|Hd].
    + exists d. split; [|apply conflicts_refl].
      change rows' with (fst (rows', n)). rewrite <- E. apply Keep.
      apply in_or_app. right. now left.
    + change rows' with (fst (rows', n)). rewrite <- E. now apply IH.
Qed.

(** A batch whose rows all conflict with stored rows inserts nothing. *)
Lemma insertSkipDuplicates_all_skipped data rows :
  (forall d, In d data -> violatesUnique d rows = true) ->
  insertSkipDuplicates data rows = (rows, 0%nat).
Proof.
  induction data as [|d ds IH]; simpl; intro H; [reflexivity|].
  rewrite (H d (or_introl eq_refl)). apply IH.
  intros d' Hd'. apply H. now right.
Qed.

(* ------------------------------------------------------------------ *)
(** ** Enrollment *)

Lemma create_unfold session project queue object type newId now s :
  create session project queue object type newId now s =
  if hasAccess session project "scoreConfigs:CUD" then
    if violatesUnique (newItem newId project queue object type now) (items s)
    then (Throw (TRPCError INTERNAL_SERVER_ERROR
                           "Creating annotation queue failed."), s)
    else (Return (newItem newId project queue object type now),
          withItems s (items s ++ [newItem newId project queue object type
                                           now]))
  else (Throw (TRPCError FORBIDDEN
                 "User does not have access to this resource or action"), s).
Proof.
  unfold create, tryCatch, bind, throwIfNoProjectAccess, prismaCreate.
  destruct (hasAccess session project "scoreConfigs:CUD"); simpl;
    [|reflexivity].
  destruct (violatesUnique _ (items s)); reflexivity.
Qed.

Lemma createMany_unfold session project queue objectIds type newIds now s :
  createMany session project queue objectIds type newIds now s =
  if hasAccess session project "scoreConfigs:CUD" then
    let (rows', n) :=
      insertSkipDuplicates
        (createManyData project queue type newIds now
                        (firstn MAX_ITEMS objectIds)) (items s) in
    (Return (mkCreateManyResult n (List.length objectIds)
               (Nat.min (List.length objectIds) MAX_ITEMS)),
     withItems s rows')
  else (Throw (TRPCError FORBIDDEN
                 "User does not have access to this resource or action"), s).
Proof.
  unfold createMany, tryCatch, bind, throwIfNoProjectAccess, prismaCreateMany.
  destruct (hasAccess session project "scoreConfigs:CUD"); simpl;
    [|reflexivity].
  destruct (insertSkipDuplicates _ (items s)); reflexivity.
Qed.

Lemma map_snd_combine_seq {A} (l : list A) : forall k,
  map snd (combine (seq k (List.length l)) l) = l.
Proof.
  induction l as [|a l IH]; intro k; simpl; [reflexivity|]. now rewrite IH.
Qed.

Lemma createManyData_objectIds project queue type newIds now l :
  map objectId (createManyData project queue type newIds now l) = l.
Proof.
  unfold createManyData. rewrite map_map. simpl.
  rewrite <- (map_map snd (fun o => o)), map_id. apply map_snd_combine_seq.
Qed.

Lemma createManyData_fields project queue type newIds now l d :
  In d (createManyData project queue type newIds now l) ->
  exists k, (k < List.length l)%nat
            /\ d = newItem (newIds k) project queue (objectId d) type now
            /\ nth_error l k = Some (objectId d).
Proof.
  unfold createManyData. intro H. apply in_map_iff in H.
  destruct H as ([k o] & <- & Hin). simpl.
  assert (G : forall (l0 : list Id) b,
              In (k, o) (combine (seq b (List.length l0)) l0) ->
              (b <= k < b + List.length l0)%nat
              /\ nth_error l0 (k - b) = Some o).
  { clear. induction l0 as [|a l0 IH]; intros b H; simpl in H; [destruct H|].
    destruct H as [H|H].
    - inversion H; subst. split; [simpl; lia|]. now rewrite Nat.sub_diag.
    - destruct (IH _ H) as [Hk Hn]. split; [simpl; lia|].
      replace (k - b)%nat with (S (k - S b)) by lia. exact Hn. }
  destruct (G l 0%nat Hin) as [Hk Hn]. rewrite Nat.sub_0_r in Hn.
  exists k. repeat split; [lia|exact Hn].
Qed.

Lemma noNewDuplicate_of_conflicts rows added :
  (forall a r, In a added -> In r rows -> conflicts a r = false) ->
  ForallOrdPairs (fun a b => conflicts a b = false) added ->
  noNewDuplicate rows added.
Proof.
  intros Hr Ha. split.
  - intros a r Hin Hrow. now apply conflicts_false, Hr.
  - clear -Ha. induction Ha as [|a l Hf _ IH]; constructor; auto.
    apply Forall_forall. intros b Hb.
    rewrite Forall_forall in Hf. now apply conflicts_false, Hf.
Qed.


(** Both enrollment paths keep the pairs of the store unique. *)
Lemma uniquePairs_app rows added :
  uniquePairs rows -> noNewDuplicate rows added ->
  uniquePairs (rows ++ added).
Proof.
  unfold uniquePairs. intros U [Hr Ha].
  induction U as [|a l Hf _ IH]; simpl; [exact Ha|].
  constructor.
  - apply Forall_app. split; [exact Hf|].
    apply Forall_forall. intros b Hb. rewrite samePair_sym.
    apply Hr; [exact Hb|now left].
  - apply IH. intros b r Hb Hrow. apply Hr; [exact Hb|now right].
Qed.

(** C6.  For a caller with access, [createMany] inserts rows only for
    entries among the first [min(length, 500)] object ids, in their original
    order, drops the entries beyond the cap without an error, and reports
    the full input length as [totalRequested] next to the attempted count
    [created = min(length, 500)]; the number of rows created is at most that
    count. *)
Theorem createMany_batch_cap session project queue objectIds type newIds now s :
  hasAccess session project "scoreConfigs:CUD" = true ->
  exists added,
    createMany session project queue objectIds type newIds now s
    = (Return (mkCreateManyResult
                 (List.length added)
                 (List.length objectIds)
                 (Nat.min (List.length objectIds) 500)),
       withItems s (items s ++ added))
    /\ subseq (map objectId added) (firstn 500 objectIds)
    /\ (List.length added <= Nat.min (List.length objectIds) 500)%nat
    /\ Forall (fun a => queueId a = queue /\ projectId a = project
                        /\ objectType a = type /\ status a = PENDING) added.
Proof.
  intro Acc. rewrite createMany_unfold, Acc. unfold MAX_ITEMS.
  destruct (insertSkipDuplicates_spec
              (createManyData project queue type newIds now
                              (firstn 500 objectIds)) (items s))
    as (added & E & S & _).
  rewrite E. exists added. split; [reflexivity|].
  assert (Sub : subseq (map objectId added) (firstn 500 objectIds)).
  { rewrite <- (createManyData_objectIds project queue type newIds now
                  (firstn 500 objectIds)).
    now apply subseq_map. }
  split; [exact Sub|]. split.
  - apply subseq_length in Sub. rewrite length_map, length_firstn in Sub. lia.
  - apply Forall_forall. intros a Ha.
    apply (subseq_In _ _ _ S) in Ha.
    apply createManyData_fields in Ha. destruct Ha as (k & _ & -> & _).
    simpl. auto.
Qed.

(** 600 object ids on an empty queue: 500 rows, 600 requested. *)
Lemma createMany_batch_cap_witness :
  exists added,
    createMany Sample.alice "p" "q" (Sample.objects 600) TRACE
               Sample.itemName 0 (Sample.store [])
    = (Return (mkCreateManyResult (List.length added) 600 500),
       Sample.store added)
    /\ (List.length added <= 500)%nat
    /\ fst (createMany Sample.alice "p" "q" (Sample.objects 600) TRACE
                       Sample.itemName 0 (Sample.store []))
       = Return (mkCreateManyResult 500 600 500).
Proof.
  destruct (createMany_batch_cap Sample.alice "p" "q" (Sample.objects 600)
              TRACE Sample.itemName 0 (Sample.store []) eq_refl)
    as (added & E & _ & L & _).
  exists added. split; [|split; [exact L|]].
  - rewrite E. reflexivity.
  - vm_compute. reflexivity.
Defined.

Lemma uniquePairs_filter_le1 queue object type rows :
  uniquePairs rows ->
  (List.length (filter (pairIs queue object type) rows) <= 1)%nat.
Proof.
  unfold uniquePairs. induction 1 as [|a l Hf _ IH]; simpl; [lia|].
  destruct (pairIs queue object type a) eqn:Pa; [|exact IH].
  rewrite filter_none; [simpl; lia|].
  intros b Hb. destruct (pairIs queue object type b) eqn:Pb; [|reflexivity].
  rewrite Forall_forall in Hf. specialize (Hf b Hb).
  apply pairIs_iff in Pa, Pb.
  assert (S : samePair a b = true)
    by (apply samePair_iff; intuition congruence).
  congruence.
Qed.

Lemma filter_length_ge1 {A} (f : A -> bool) l x :
  In x l -> f x = true -> (1 <= List.length (filter f l))%nat.
Proof.
  intros Hin Hf.
  assert (H : In x (filter f l)) by now apply filter_In.
  destruct (filter f l); [destruct H|simpl; lia].
Qed.

Section EnrollTwice.
Variable session : Session.
Variables project queue : Id.
Variable objectIds : list Id.
Variable type : AnnotationQueueObjectType.
Variables newIds1 newIds2 : nat -> Id.
Variables t1 t2 : Time.
Variable s : Store.

Hypothesis access : hasAccess session project "scoreConfigs:CUD" = true.
Hypothesis withinCap : (List.length objectIds <= MAX_ITEMS)%nat.
Hypothesis pairsUnique : uniquePairs (items s).
(** The ids generated for the first batch are new and pairwise distinct. *)
Hypothesis idsFresh :
  forall k, (k < List.length objectIds)%nat ->
            ~ In (newIds1 k) (map id (items s)).
Hypothesis idsDistinct :
  forall j k, (j < List.length objectIds)%nat ->
              (k < List.length objectIds)%nat ->
              newIds1 j = newIds1 k -> j = k.

(** After the first batch every object of the batch has a row. *)
Lemma first_batch_covers added :
  insertSkipDuplicates
    (createManyData project queue type newIds1 t1 objectIds) (items s)
  = (items s ++ added, List.length added) ->
  subseq added (createManyData project queue type newIds1 t1 objectIds) ->
  forall o, In o objectIds ->
    exists r, In r (items s ++ added)
              /\ pairIs queue o type r = true.
Proof.
  intros E S o Ho.
  rewrite <- (createManyData_objectIds project queue type newIds1 t1
                objectIds) in Ho.
  apply in_map_iff in Ho. destruct Ho as (d & <- & Hd).
  destruct (insertSkipDuplicates_covers
              (createManyData project queue type newIds1 t1 objectIds)
              (items s) d Hd)
    as (r & Hr & C).
  rewrite E in Hr. simpl in Hr.
  destruct (createManyData_fields _ _ _ _ _ _ _ Hd) as (k & Hk & Ed & Hn).
  unfold conflicts in C. apply orb_true_iff in C. destruct C as [C|C].
  - apply String.eqb_eq in C. apply in_app_or in Hr.
    destruct Hr as [Hr|Hr].
    + exfalso. apply (idsFresh k Hk).
      replace (newIds1 k) with (id d) by (rewrite Ed; reflexivity).
      rewrite C. now apply in_map.
    + exists r. split; [apply in_or_app; now right|].
      apply (subseq_In _ _ _ S) in Hr.
      destruct (createManyData_fields _ _ _ _ _ _ _ Hr)
        as (k' & Hk' & Er & Hn').
      assert (Ek : k = k').
      { apply idsDistinct; auto.
        replace (newIds1 k) with (id d) by (rewrite Ed; reflexivity).
        replace (newIds1 k') with (id r) by (rewrite Er; reflexivity).
        exact C. }
      subst k'. rewrite Hn in Hn'. injection Hn' as Eo.
      apply pairIs_iff. rewrite Er, <- Eo. simpl. auto.
  - exists r. split; [exact Hr|].
    apply samePair_iff in C. apply pairIs_iff.
    rewrite Ed in C. simpl in C. intuition congruence.
Qed.


End EnrollTwice.


(* ------------------------------------------------------------------ *)
(** ** Deleting by object reference *)

Lemma deleteWhere_iff project object type x :
  deleteWhere project object type x = true <->
  objectId x = object /\ objectType x = type /\ projectId x = project.
Proof.
  unfold deleteWhere.
  rewrite !andb_true_iff, !String.eqb_eq, objectType_eqb_eq. tauto.
Qed.

(** With no row for the object, the [try] block throws the NotFound error
    and the [catch] block replaces it: what leaves [delete] is an
    [INTERNAL_SERVER_ERROR]. *)
Lemma delete_missing session project object type s :
  hasAccess session project "scoreConfigs:CUD" = true ->
  (forall x, In x (items s) -> deleteWhere project object type x = false) ->
  deleteTry session project object type s
  = (Throw (LangfuseNotFoundError "Annotation queue item not found."), s)
  /\ delete session project object type s
     = (Throw (TRPCError INTERNAL_SERVER_ERROR
                         "Creating annotation queue failed."), s).
Proof.
  intros Acc H.
  assert (F : find (deleteWhere project object type) (items s) = None).
  { destruct (find _ (items s)) as [x|] eqn:E; [|reflexivity].
    apply find_some in E. destruct E as [Hin Hw].
    rewrite (H x Hin) in Hw. discriminate. }
  unfold delete, tryCatch, deleteTry, bind, throwIfNoProjectAccess, findFirst,
    findFirstRow.
  rewrite Acc. simpl. rewrite F. simpl. auto.
Qed.

(** With a row for the object in any queue of the project, [delete] removes
    the first one the store yields, whatever its queue, and logs it. *)
Lemma delete_first_found session project object type s x :
  hasAccess session project "scoreConfigs:CUD" = true ->
  uniqueIds (items s) ->
  find (deleteWhere project object type) (items s) = Some x ->
  exists pre post,
    items s = pre ++ x :: post
    /\ (forall y, In y pre -> deleteWhere project object type y = false)
    /\ delete session project object type s
       = (Return x,
          mkStore (pre ++ post) (observations s)
                  (auditLogs s ++ [mkAudit "annotationQueueItem" (id x)
                                           "delete" (userId session)])).
Proof.
  intros Acc U F.
  assert (Split : exists pre post,
            items s = pre ++ x :: post
            /\ forall y, In y pre -> deleteWhere project object type y = false).
  { clear -F. induction (items s) as [|a l IH]; simpl in F; [discriminate|].
    destruct (deleteWhere project object type a) eqn:W.
    - inversion F; subst. exists [], l. split; [reflexivity|intros y []].
    - destruct (IH F) as (pre & post & -> & Hpre).
      exists (a :: pre), post. split; [reflexivity|].
      intros y [<-|Hy]; auto. }
  destruct Split as (pre & post & Hi & Hpre).
  exists pre, post. split; [exact Hi|]. split; [exact Hpre|].
  apply find_some in F as Fx. destruct Fx as [Hin Wx].
  apply deleteWhere_iff in Wx. destruct Wx as (_ & _ & Hp).
  assert (Bx : byIdInProject (id x) project x = true).
  { unfold byIdInProject. now rewrite String.eqb_refl, Hp, String.eqb_refl. }
  assert (Other : forall y, In y (pre ++ post) ->
                            byIdInProject (id x) project y = false).
  { intros y Hy. apply byIdInProject_other. intro E.
    rewrite Hi in U. unfold uniqueIds in U. rewrite map_app in U. simpl in U.
    apply NoDup_remove_2 in U. apply U. rewrite <- map_app, <- E.
    now apply in_map. }
  assert (Fid : find (byIdInProject (id x) project) (items s) = Some x).
  { rewrite Hi. clear -Bx Other.
    induction pre as [|a pre IH]; simpl; [now rewrite Bx|].
    rewrite (Other a (or_introl eq_refl)). apply IH.
    intros y Hy. apply Other. now right. }
  assert (Rest : filter (fun y => negb (byIdInProject (id x) project y))
                        (items s) = pre ++ post).
  { rewrite Hi, filter_app. simpl. rewrite Bx. simpl. rewrite <- filter_app.
    clear -Other. induction (pre ++ post) as [|a l IH]; [reflexivity|].
    simpl. rewrite (Other a (or_introl eq_refl)). simpl. f_equal.
    apply IH. intros y Hy. apply Other. now right. }
  unfold delete, tryCatch, deleteTry, bind, throwIfNoProjectAccess, findFirst,
    findFirstRow, prismaDelete, auditLog, ret.
  rewrite Acc. simpl. rewrite F. rewrite Fid, Rest. reflexivity.
Qed.

(** C10, at the failing input: a caller with access deletes an object that
    has no row anywhere in the project.  The error that reaches the caller
    is [INTERNAL_SERVER_ERROR] "Creating annotation queue failed.", not the
    NotFound error thrown inside the [try] block. *)
Example delete_not_found_is_wrapped :
  let s := Sample.store [Sample.pending "i1" "A" 10] in
  deleteTry Sample.alice "p" "Z" TRACE s
  = (Throw (LangfuseNotFoundError "Annotation queue item not found."), s)
  /\ delete Sample.alice "p" "Z" TRACE s
     = (Throw (TRPCError INTERNAL_SERVER_ERROR
                         "Creating annotation queue failed."), s).
Proof. split; reflexivity. Qed.

(** The object is enrolled in two queues: [delete] names no queue and
    removes the row met first, here the one of queue ["q1"]. *)
Example delete_not_scoped_to_queue :
  let a1 := newItem "i1" "p" "q1" "A" TRACE 10 in
  let a2 := newItem "i2" "p" "q2" "A" TRACE 20 in
  fst (delete Sample.alice "p" "A" TRACE (Sample.store [a1; a2])) = Return a1
  /\ items (snd (delete Sample.alice "p" "A" TRACE (Sample.store [a1; a2])))
     = [a2].
Proof. split; reflexivity. Qed.

(** [enroll(Q, [A, B, C])] twice, evaluated: 3 created, then 0; 3 rows. *)
Example createMany_twice_three :
  let s1 := snd (createMany Sample.alice "p" "q" ["A"; "B"; "C"] TRACE
                            Sample.itemName 10 (Sample.store [])) in
  fst (createMany Sample.alice "p" "q" ["A"; "B"; "C"] TRACE
                  Sample.itemName 10 (Sample.store []))
  = Return (mkCreateManyResult 3 3 3)
  /\ fst (createMany Sample.alice "p" "q" ["A"; "B"; "C"] TRACE
                     (fun k => Sample.itemName (k + 3)) 20 s1)
     = Return (mkCreateManyResult 0 3 3)
  /\ List.length (items s1) = 3%nat.
Proof. repeat split. Qed.

(* ================================================================== *)
(** * The rest of the item router *)

(** ** Fetching a row by id *)

Lemma byId_found project i s x :
  find (byIdInProject i project) (items s) = Some x ->
  exists parent, byId project i s = (Return (Some (mkItemById x parent)), s).
Proof.
  intro F. unfold byId, bind, findUniqueItem. rewrite F.
  destruct (objectType_eqb (objectType x) OBSERVATION);
    unfold bind, observationFindUniqueById, ret; eauto.
Qed.

Lemma byId_none project i s :
  find (byIdInProject i project) (items s) = None ->
  byId project i s = (Return None, s).
Proof. intro F. unfold byId, bind, findUniqueItem. now rewrite F. Qed.

(** A row whose id no other row carries is the one found under that id. *)
Lemma find_by_own_id project rows a :
  In a rows -> projectId a = project ->
  (forall b, In b rows -> id b = id a -> b = a) ->
  find (byIdInProject (id a) project) rows = Some a.
Proof.
  intros Hin Hp Hu. induction rows as [|h tl IH]; [destruct Hin|].
  simpl. destruct (byIdInProject (id a) project h) eqn:B.
  - unfold byIdInProject in B. apply andb_true_iff in B. destruct B as [B _].
    apply String.eqb_eq in B. f_equal. apply Hu; [now left|exact B].
  - destruct Hin as [->|Hin].
    + unfold byIdInProject in B.
      now rewrite String.eqb_refl, Hp, String.eqb_refl in B.
    + apply IH; [exact Hin|]. intros b Hb. apply Hu. now right.
Qed.

(** Among rows appended without conflict, each is the only one of its id. *)
Lemma appended_id_unique rows added a :
  (forall x r, In x added -> In r rows -> conflicts x r = false) ->
  ForallOrdPairs (fun x y => conflicts x y = false) added ->
  In a added ->
  forall b, In b (rows ++ added) -> id b = id a -> b = a.
Proof.
  intros Hr Ha Hin b Hb E. apply in_app_or in Hb. destruct Hb as [Hb|Hb].
  - pose proof (Hr a b Hin Hb) as C. apply conflicts_false in C.
    destruct C as [N _]. now symmetry in E.
  - destruct (ForallOrdPairs_In Ha b a Hb Hin) as [H|[H|H]]; [exact H| |];
      apply conflicts_false in H; destruct H as [N _];
      [|symmetry in E]; contradiction.
Qed.

Lemma find_all_false {A} (f : A -> bool) (l : list A) :
  (forall x, In x l -> f x = false) -> find f l = None.
Proof.
  induction l as [|a l IH]; simpl; intro H; [reflexivity|].
  rewrite (H a (or_introl eq_refl)). apply IH. intros x Hx. apply H. now right.
Qed.

(** X1.  A row that [create] returns can be read back: [byId] under the new
    id, in the same project, returns exactly that row, a fresh [PENDING] row
    appended to the table. *)
Theorem create_then_byId session project queue object type newId now s x s' :
  create session project queue object type newId now s = (Return x, s') ->
  x = newItem newId project queue object type now
  /\ items s' = items s ++ [x]
  /\ exists parent,
       byId project newId s' = (Return (Some (mkItemById x parent)), s').
Proof.
  rewrite create_unfold.
  destruct (hasAccess session project "scoreConfigs:CUD"); [|discriminate].
  destruct (violatesUnique _ (items s)) eqn:V; [discriminate|].
  intro H. inversion H; subst. clear H. simpl.
  split; [reflexivity|]. split; [reflexivity|].
  set (x := newItem newId project queue object type now).
  apply (byId_found project (id x)). simpl.
  apply (find_by_own_id project (items s ++ [x]) x);
    [apply in_or_app; right; now left|reflexivity|].
  apply appended_id_unique; [| |now left].
  - intros y r [<-|[]] Hr. now apply (violatesUnique_false x (items s)).
  - repeat constructor.
Qed.

Lemma create_then_byId_witness :
  let a := Sample.pending "i1" "A" 10 in
  let b := newItem "i2" "p" "q" "B" TRACE 20 in
  b = newItem "i2" "p" "q" "B" TRACE 20
  /\ [a; b] = [a] ++ [b]
  /\ exists parent,
       byId "p" "i2" (Sample.store [a; b])
       = (Return (Some (mkItemById b parent)), Sample.store [a; b]).
Proof.
  intros a b.
  apply (create_then_byId Sample.alice "p" "q" "B" TRACE "i2" 20
                          (Sample.store [a]) b (Sample.store [a; b])).
  reflexivity.
Defined.

(** X2.  Every row that [createMany] inserts can be read back: the rows it
    adds are as many as the [count] it reports, and [byId] under the id of
    each returns that row. *)
Theorem createMany_then_byId session project queue objectIds type newIds now
    s r s' :
  createMany session project queue objectIds type newIds now s
  = (Return r, s') ->
  exists added,
    items s' = items s ++ added
    /\ List.length added = count r
    /\ forall a, In a added ->
         exists parent,
           byId project (id a) s' = (Return (Some (mkItemById a parent)), s').
Proof.
  rewrite createMany_unfold.
  destruct (hasAccess session project "scoreConfigs:CUD"); [|discriminate].
  destruct (insertSkipDuplicates_spec
              (createManyData project queue type newIds now
                              (firstn MAX_ITEMS objectIds)) (items s))
    as (added & E & S & Hr & Ha).
  rewrite E. intro H. inversion H; subst. clear H. simpl.
  exists added. split; [reflexivity|]. split; [reflexivity|].
  intros a Hin. apply byId_found. simpl.
  apply find_by_own_id; [apply in_or_app; now right| |].
  - apply (subseq_In _ _ _ S) in Hin.
    apply createManyData_fields in Hin. destruct Hin as (k & _ & -> & _).
    reflexivity.
  - now apply appended_id_unique.
Qed.

Lemma createMany_then_byId_witness :
  let a := newItem (Sample.itemName 0) "p" "q" "A" TRACE 10 in
  let b := newItem (Sample.itemName 1) "p" "q" "B" TRACE 10 in
  exists added,
    [a; b] = [] ++ added
    /\ List.length added = 2%nat
    /\ forall x, In x added ->
         exists parent,
           byId "p" (id x) (Sample.store [a; b])
           = (Return (Some (mkItemById x parent)), Sample.store [a; b]).
Proof.
  intros a b.
  apply (createMany_then_byId Sample.alice "p" "q" ["A"; "B"] TRACE
           Sample.itemName 10 (Sample.store [])
           (mkCreateManyResult 2 2 2) (Sample.store [a; b])).
  reflexivity.
Defined.

(** X3.  A successful item [delete] removes exactly the first row the store
    yields for (project, object, type), whatever its queue, keeps every
    other row in place, writes one audit entry naming the removed row, and
    afterwards [byId] no longer finds that id. *)
Theorem delete_then_byId session project object type s x s' :
  uniqueIds (items s) ->
  delete session project object type s = (Return x, s') ->
  exists pre post,
    items s = pre ++ x :: post
    /\ items s' = pre ++ post
    /\ deleteWhere project object type x = true
    /\ (forall y, In y pre -> deleteWhere project object type y = false)
    /\ auditLogs s' = auditLogs s ++ [mkAudit "annotationQueueItem" (id x)
                                              "delete" (userId session)]
    /\ byId project (id x) s' = (Return None, s').
Proof.
  intros U H.
  destruct (hasAccess session project "scoreConfigs:CUD") eqn:Acc.
  2:{ unfold delete, tryCatch, deleteTry, bind, throwIfNoProjectAccess in H.
      rewrite Acc in H. discriminate. }
  destruct (find (deleteWhere project object type) (items s)) as [x0|] eqn:F.
  2:{ rewrite (proj2 (delete_missing session project object type s Acc
                        (find_none _ _ F))) in H. discriminate. }
  destruct (delete_first_found session project object type s x0 Acc U F)
    as (pre & post & Hi & Hpre & E).
  rewrite E in H. inversion H; subst x0 s'. clear H.
  exists pre, post. simpl. repeat split; auto.
  - now apply find_some in F.
  - apply byId_none. simpl. apply find_all_false. intros y Hy.
    apply byIdInProject_other. intro Ey.
    rewrite Hi in U. unfold uniqueIds in U. rewrite map_app in U. simpl in U.
    apply NoDup_remove_2 in U. apply U. rewrite <- map_app, <- Ey.
    now apply in_map.
Qed.

Lemma delete_then_byId_witness :
  let a1 := newItem "i1" "p" "q1" "A" TRACE 10 in
  let a2 := newItem "i2" "p" "q2" "A" TRACE 20 in
  let s' := mkStore [a2] [] [mkAudit "annotationQueueItem" "i1" "delete"
                                     "alice"] in
  exists pre post,
    [a1; a2] = pre ++ a1 :: post
    /\ [a2] = pre ++ post
    /\ deleteWhere "p" "A" TRACE a1 = true
    /\ (forall y, In y pre -> deleteWhere "p" "A" TRACE y = false)
    /\ auditLogs s' = [] ++ [mkAudit "annotationQueueItem" "i1" "delete"
                                     "alice"]
    /\ byId "p" "i1" s' = (Return None, s').
Proof.
  intros a1 a2 s'.
  apply (delete_then_byId Sample.alice "p" "A" TRACE
                          (Sample.store [a1; a2]) a1 s').
  - unfold uniqueIds. simpl. repeat constructor; simpl; intuition discriminate.
  - reflexivity.
Defined.

(** ** Deleting many rows *)

Lemma forEach_auditLog (f : Id -> AuditLogEntry) (l : list Id) : forall s,
  forEach l (fun i => auditLog (f i)) s
  = (Return tt, mkStore (items s) (observations s) (auditLogs s ++ map f l)).
Proof.
  induction l as [|a l IH]; intro s; simpl.
  - unfold ret. rewrite app_nil_r. now destruct s.
  - unfold bind, auditLog at 1. rewrite IH. simpl. now rewrite <- app_assoc.
Qed.

Lemma deleteManyWhere_iff itemIds project x :
  deleteManyWhere itemIds project x = true <->
  In (id x) itemIds /\ projectId x = project.
Proof.
  unfold deleteManyWhere. rewrite andb_true_iff, String.eqb_eq, existsb_exists.
  split.
  - intros [(i & Hi & E) Hp]. apply String.eqb_eq in E. now subst.
  - intros [Hi Hp]. split; [|exact Hp].
    exists (id x). split; [exact Hi|apply String.eqb_refl].
Qed.

Lemma filter_partition_length {A} (f : A -> bool) (l : list A) :
  (List.length (filter f l)
   + List.length (filter (fun x => negb (f x)) l))%nat = List.length l.
Proof.
  induction l as [|a l IH]; simpl; [reflexivity|].
  destruct (f a); simpl; lia.
Qed.

Lemma filter_all_true {A} (f : A -> bool) (l : list A) :
  (forall x, In x l -> f x = true) -> filter f l = l.
Proof.
  induction l as [|a l IH]; simpl; intro H; [reflexivity|].
  rewrite (H a (or_introl eq_refl)). f_equal. apply IH.
  intros x Hx. apply H. now right.
Qed.

Lemma deleteMany_unfold session project itemIds s :
  hasAccess session project "scoreConfigs:CUD" = true ->
  deleteMany session project itemIds s =
  (Return (List.length (filter (deleteManyWhere itemIds project) (items s))),
   mkStore (filter (fun x => negb (deleteManyWhere itemIds project x))
                   (items s))
           (observations s)
           (auditLogs s
            ++ map (fun i => mkAudit "annotationQueueItem" i "delete"
                                     (userId session)) itemIds)).
Proof.
  intro Acc.
  unfold deleteMany, tryCatch, bind, throwIfNoProjectAccess. rewrite Acc.
  simpl.
  rewrite (forEach_auditLog
             (fun i => mkAudit "annotationQueueItem" i "delete"
                               (userId session))).
  reflexivity.
Qed.

(** X4.  For a caller with access, [deleteMany] removes exactly the
    rows of the project whose id is listed, and reports how many; rows of
    other projects stay even when their id is listed.  It writes one audit
    entry per requested id, in order, whether or not a row with that id was
    removed. *)
Theorem deleteMany_effect session project itemIds s :
  hasAccess session project "scoreConfigs:CUD" = true ->
  exists n s',
    deleteMany session project itemIds s = (Return n, s')
    /\ (n + List.length (items s'))%nat = List.length (items s)
    /\ (forall x, In x (items s') <->
                  In x (items s)
                  /\ ~ (In (id x) itemIds /\ projectId x = project))
    /\ auditLogs s'
       = auditLogs s ++ map (fun i => mkAudit "annotationQueueItem" i "delete"
                                              (userId session)) itemIds
    /\ observations s' = observations s.
Proof.
  intro Acc. rewrite (deleteMany_unfold _ _ _ _ Acc).
  eexists. eexists. split; [reflexivity|]. simpl.
  split; [apply filter_partition_length|]. split; [|auto].
  intro x. rewrite filter_In, negb_true_iff, <- deleteManyWhere_iff.
  destruct (deleteManyWhere itemIds project x); intuition congruence.
Qed.

Lemma deleteMany_effect_witness :
  let a := newItem "i1" "p" "q" "A" TRACE 10 in
  let b := newItem "i2" "other" "q9" "B" TRACE 20 in
  exists n s',
    deleteMany Sample.alice "p" ["i1"; "i2"; "i3"] (Sample.store [a; b])
    = (Return n, s')
    /\ (n + List.length (items s'))%nat = 2%nat
    /\ (forall x, In x (items s') <->
                  In x [a; b]
                  /\ ~ (In (id x) ["i1"; "i2"; "i3"] /\ projectId x = "p"))
    /\ auditLogs s'
       = [] ++ map (fun i => mkAudit "annotationQueueItem" i "delete" "alice")
                   ["i1"; "i2"; "i3"]
    /\ observations s' = [].
Proof.
  intros a b.
  apply (deleteMany_effect Sample.alice "p" ["i1"; "i2"; "i3"]
                           (Sample.store [a; b])).
  reflexivity.
Defined.

(** X5.  Repeating a [deleteMany] removes nothing more: the second call
    reports 0 and leaves the rows as they are, yet logs every requested id
    again; after the first call [byId] finds none of the listed ids in the
    project. *)
Theorem deleteMany_twice session project itemIds s :
  hasAccess session project "scoreConfigs:CUD" = true ->
  let s1 := snd (deleteMany session project itemIds s) in
  let s2 := snd (deleteMany session project itemIds s1) in
  fst (deleteMany session project itemIds s1) = Return 0%nat
  /\ items s2 = items s1
  /\ auditLogs s2
     = auditLogs s1 ++ map (fun i => mkAudit "annotationQueueItem" i "delete"
                                             (userId session)) itemIds
  /\ forall i, In i itemIds -> byId project i s1 = (Return None, s1).
Proof.
  intros Acc s1 s2. subst s2 s1.
  rewrite !(deleteMany_unfold _ _ _ _ Acc). simpl.
  assert (Gone : forall x,
            In x (filter (fun x => negb (deleteManyWhere itemIds project x))
                         (items s)) ->
            deleteManyWhere itemIds project x = false).
  { intros x Hx. apply filter_In in Hx. destruct Hx as [_ Hx].
    now apply negb_true_iff. }
  split; [|split; [|split]].
  - now rewrite (filter_none _ _ Gone).
  - apply filter_all_true. intros x Hx. now rewrite (Gone x Hx).
  - reflexivity.
  - intros i Hi. apply byId_none. simpl. apply find_all_false.
    intros x Hx. specialize (Gone x Hx).
    destruct (byIdInProject i project x) eqn:B; [|reflexivity].
    unfold byIdInProject in B. apply andb_true_iff in B.
    destruct B as [Bi Bp]. apply String.eqb_eq in Bi, Bp.
    assert (W : deleteManyWhere itemIds project x = true)
      by (apply deleteManyWhere_iff; subst; auto).
    congruence.
Qed.

Lemma deleteMany_twice_witness :
  let a := newItem "i1" "p" "q" "A" TRACE 10 in
  let b := newItem "i2" "p" "q" "B" TRACE 20 in
  let s1 := snd (deleteMany Sample.alice "p" ["i1"] (Sample.store [a; b])) in
  fst (deleteMany Sample.alice "p" ["i1"] s1) = Return 0%nat
  /\ items (snd (deleteMany Sample.alice "p" ["i1"] s1)) = items s1
  /\ auditLogs (snd (deleteMany Sample.alice "p" ["i1"] s1))
     = auditLogs s1 ++ map (fun i => mkAudit "annotationQueueItem" i "delete"
                                             "alice") ["i1"]
  /\ forall i, In i ["i1"] -> byId "p" i s1 = (Return None, s1).
Proof.
  intros a b.
  apply (deleteMany_twice Sample.alice "p" ["i1"] (Sample.store [a; b])).
  reflexivity.
Defined.

(** ** Access *)

(** X6.  Without the [scoreConfigs:CUD] scope on the project, none of the
    four mutations of the item router does anything: each throws
    [FORBIDDEN], which the [catch] block passes on unchanged, and the table
    and the audit log are as before. *)
Theorem item_mutations_need_access session project s :
  hasAccess session project "scoreConfigs:CUD" = false ->
  let forbidden {A} : Outcome A :=
    Throw (TRPCError FORBIDDEN
             "User does not have access to this resource or action") in
  (forall queue object type newId now,
     create session project queue object type newId now s = (forbidden, s))
  /\ (forall queue objectIds type newIds now,
        createMany session project queue objectIds type newIds now s
        = (forbidden, s))
  /\ (forall object type, delete session project object type s = (forbidden, s))
  /\ (forall itemIds, deleteMany session project itemIds s = (forbidden, s)).
Proof.
  intros Acc forbidden. subst forbidden. repeat split; intros.
  - now rewrite create_unfold, Acc.
  - now rewrite createMany_unfold, Acc.
  - unfold delete, tryCatch, deleteTry, bind, throwIfNoProjectAccess.
    now rewrite Acc.
  - unfold deleteMany, tryCatch, bind, throwIfNoProjectAccess.
    now rewrite Acc.
Qed.

Lemma item_mutations_need_access_witness :
  let eve := mkSession "eve" (fun _ _ => false) in
  let s := Sample.store [Sample.pending "i1" "A" 10] in
  delete eve "p" "A" TRACE s
  = (Throw (TRPCError FORBIDDEN
              "User does not have access to this resource or action"), s)
  /\ deleteMany eve "p" ["i1"] s
     = (Throw (TRPCError FORBIDDEN
                 "User does not have access to this resource or action"), s).
Proof.
  intros eve s.
  destruct (item_mutations_need_access eve "p" s eq_refl)
    as (_ & _ & Hd & Hm).
  split; [apply Hd|apply Hm].
Defined.

(** ** Completion and the other procedures *)

Lemma complete_marks session project queue object type now s y :
  In y (items (snd (complete session project queue object type now s))) ->
  completeWhere queue project object type y = true ->
  status y = COMPLETED /\ completedAt y = Some now
  /\ annotatorUserId y = Some (userId session).
Proof.
  rewrite complete_unfold. simpl. intros Hy W.
  apply in_map_iff in Hy. destruct Hy as (x & <- & _).
  destruct (completeWhere queue project object type x) eqn:Wx.
  - simpl. auto.
  - congruence.
Qed.

(** X7.  Once [complete] has run for (queue, object), [next] on that queue
    never hands out a row for that object, at any time and for any caller:
    completed rows do not come back. *)
Theorem complete_then_next_skips session project queue object type t s
    caller now r s2 :
  let s1 := snd (complete session project queue object type t s) in
  next caller queue project now s1 = (Return (Some r), s2) ->
  ~ (objectId (item r) = object /\ objectType (item r) = type).
Proof.
  intros s1 H [Ho Ht]. apply next_some_inv in H. destruct H as [F _].
  destruct (first_candidate_split _ _ _ _ _ F) as (pre & post & Hi & C & _).
  apply nextWhere_fields in C. destruct C as (Hq & Hp & Hst & _).
  assert (Hin : In (item r) (items s1))
    by (rewrite Hi; apply in_or_app; right; now left).
  assert (W : completeWhere queue project object type (item r) = true).
  { unfold completeWhere.
    rewrite Hq, Hp, Ho, Ht, !String.eqb_refl, objectType_eqb_refl.
    reflexivity. }
  destruct (complete_marks _ _ _ _ _ _ _ _ Hin W) as (Hc & _). congruence.
Qed.

Lemma complete_then_next_skips_witness :
  let b := Sample.pending "i2" "B" 20 in
  let s := Sample.store [Sample.pending "i1" "A" 10; b] in
  let s1 := snd (complete Sample.alice "p" "q" "A" TRACE 100 s) in
  fst (next Sample.bob "q" "p" 200 s1) = Return (Some (mkNextItem b None))
  /\ ~ (objectId b = "A" /\ objectType b = TRACE).
Proof.
  intros b s s1. split; [reflexivity|].
  apply (complete_then_next_skips Sample.alice "p" "q" "A" TRACE 100 s
           Sample.bob 200 (mkNextItem b None)
           (Sample.store [setCompleted 100 "alice" (Sample.pending "i1" "A" 10);
                          setLease 200 "bob" b])).
  reflexivity.
Defined.

(** X8.  [complete] rewrites rows in place and nothing else: no row is
    added, removed or moved, rows outside (queue, project, object) are
    untouched, a completed row keeps its id, keys, [createdAt] and its
    lease (holder and start are not cleared), and no audit entry is
    written. *)
Theorem complete_frame session project queue object type now s :
  let s1 := snd (complete session project queue object type now s) in
  observations s1 = observations s
  /\ auditLogs s1 = auditLogs s
  /\ Forall2 (fun x y =>
                id y = id x /\ projectId y = projectId x
                /\ queueId y = queueId x /\ objectId y = objectId x
                /\ objectType y = objectType x /\ createdAt y = createdAt x
                /\ editStartTime y = editStartTime x
                /\ editStartByUserId y = editStartByUserId x
                /\ (completeWhere queue project object type x = false ->
                    y = x))
             (items s) (items s1).
Proof.
  intro s1. subst s1. rewrite complete_unfold. simpl.
  split; [reflexivity|]. split; [reflexivity|].
  induction (items s) as [|x l IH]; simpl; constructor; [|exact IH].
  destruct (completeWhere queue project object type x); simpl;
    repeat split; auto; discriminate.
Qed.

(** ** What [next] returns and what it leaves behind *)

Lemma next_parent session queue project now s r s' :
  next session queue project now s = (Return (Some r), s') ->
  parentTraceId r =
  if objectType_eqb (objectType (item r)) OBSERVATION then
    match find (fun o => String.eqb (obsId o) (objectId (item r))
                         && String.eqb (obsProjectId o) project)
               (observations s) with
    | Some o => traceId o
    | None => None
    end
  else None.
Proof.
  unfold next, bind, findFirstOrderByCreatedAt.
  destruct (firstByCreatedAt _) as [x|]; [|discriminate].
  unfold prismaUpdate. destruct (find _ (items s)); [|discriminate].
  unfold lookupParent.
  destruct (objectType_eqb (objectType x) OBSERVATION) eqn:O;
    unfold bind, observationFindUniqueById, observationFindUnique, ret;
    simpl; intro H; inversion H; subst; simpl; now rewrite O.
Qed.

Lemma byId_parent project i s x parent s' :
  byId project i s = (Return (Some (mkItemById x parent)), s') ->
  parent =
  if objectType_eqb (objectType x) OBSERVATION then
    match find (fun o => String.eqb (obsId o) (objectId x))
               (observations s) with
    | Some o => traceId o
    | None => None
    end
  else None.
Proof.
  unfold byId, bind, findUniqueItem.
  destruct (find _ (items s)) as [y|]; [|discriminate].
  destruct (objectType_eqb (objectType y) OBSERVATION) eqn:O;
    unfold bind, observationFindUniqueById, ret; simpl;
    intro H; inversion H; subst; now rewrite O.
Qed.

Lemma find_ext_in {A} (f g : A -> bool) (l : list A) :
  (forall x, In x l -> f x = g x) -> find f l = find g l.
Proof.
  induction l as [|a l IH]; simpl; intro H; [reflexivity|].
  rewrite (H a (or_introl eq_refl)). destruct (g a); [reflexivity|].
  apply IH. intros x Hx. apply H. now right.
Qed.

(** X9.  [next] returns the row as it read it, before its own claim write:
    the returned row is a row of the table as it was, while [byId] right
    after the call shows the same row with the caller's lease.  The parent
    trace reported by [byId], whose observation lookup is by id alone, is
    the one [next] reported when every observation of that id is in the
    project. *)
Theorem next_returns_row_before_write session queue project now s r s' :
  uniqueIds (items s) ->
  next session queue project now s = (Return (Some r), s') ->
  In (item r) (items s)
  /\ exists parent,
       byId project (id (item r)) s'
       = (Return (Some (mkItemById (setLease now (userId session) (item r))
                                   parent)), s')
       /\ ((forall o, In o (observations s) ->
              obsId o = objectId (item r) -> obsProjectId o = project) ->
           parent = parentTraceId r).
Proof.
  intros U H. pose proof (next_parent _ _ _ _ _ _ _ H) as P.
  apply next_some_inv in H. destruct H as [F ->].
  destruct (first_candidate_split _ _ _ _ _ F) as (pre & post & Hi & C & _).
  apply nextWhere_fields in C. destruct C as (_ & Hp & _).
  split; [rewrite Hi; apply in_or_app; right; now left|].
  unfold claimRow. rewrite Hi in U |- *.
  rewrite (update_by_id_split _ _ _ _ _ U Hp).
  set (x := item r) in *.
  set (x' := setLease now (userId session) x).
  set (s' := withItems s (pre ++ x' :: post)).
  assert (U' : uniqueIds (pre ++ x' :: post)).
  { unfold uniqueIds in *. rewrite map_app in *. exact U. }
  assert (Fx : find (byIdInProject (id x) project) (items s') = Some x').
  { apply (find_by_own_id project (pre ++ x' :: post) x').
    - apply in_or_app. right. now left.
    - exact Hp.
    - intros b Hb Eb. now apply (uniqueIds_same_id pre x' post). }
  destruct (byId_found project (id x) s' x' Fx) as [parent E].
  exists parent. split; [exact E|].
  intro Obs. apply byId_parent in E. rewrite E, P. simpl.
  destruct (objectType_eqb (objectType x) OBSERVATION); [|reflexivity].
  rewrite (find_ext_in
             (fun o => String.eqb (obsId o) (objectId x))
             (fun o => String.eqb (obsId o) (objectId x)
                       && String.eqb (obsProjectId o) project));
    [reflexivity|].
  intros o Ho. destruct (String.eqb (obsId o) (objectId x)) eqn:Eo;
    [|reflexivity].
  apply String.eqb_eq in Eo. rewrite (Obs o Ho Eo), String.eqb_refl.
  reflexivity.
Qed.

Lemma next_returns_row_before_write_witness :
  let a := mkItem "i1" "p" "q" "obs1" OBSERVATION PENDING None None None None
                  10 in
  let s := mkStore [a] [mkObservation "obs1" "p" (Some "t1")] [] in
  let s' := mkStore [setLease 1000 "bob" a]
                    [mkObservation "obs1" "p" (Some "t1")] [] in
  In a (items s)
  /\ exists parent,
       byId "p" "i1" s'
       = (Return (Some (mkItemById (setLease 1000 "bob" a) parent)), s')
       /\ ((forall o, In o (observations s) ->
              obsId o = "obs1" -> obsProjectId o = "p") ->
           parent = Some "t1").
Proof.
  intros a s s'.
  apply (next_returns_row_before_write Sample.bob "q" "p" 1000 s
           (mkNextItem a (Some "t1")) s').
  - unfold uniqueIds. simpl. repeat constructor. intros [].
  - reflexivity.
Defined.

(* ================================================================== *)
(** * Queues and the queries that join them *)

(** ** Which queues hold an object *)

Lemma referencesObject_iff project object type x :
  Queues.referencesObject project object type x = true <->
  projectId x = project /\ objectId x = object /\ objectType x = type.
Proof.
  unfold Queues.referencesObject.
  rewrite !andb_true_iff, !String.eqb_eq, objectType_eqb_eq. tauto.
Qed.

Lemma flagQueues_spec refs qs : forall k,
  Queues.flagQueues refs qs k =
  (map (fun q => Queues.mkQueueFlag (Queues.qId q) (Queues.qName q)
                   (existsb (fun i => String.eqb i (Queues.qId q)) refs)) qs,
   (k + List.length
          (filter (fun q => existsb (fun i => String.eqb i (Queues.qId q))
                                    refs) qs))%nat).
Proof.
  induction qs as [|q qs IH]; intro k; simpl.
  - now rewrite Nat.add_0_r.
  - rewrite IH.
    destruct (existsb (fun i => String.eqb i (Queues.qId q)) refs); simpl;
      f_equal; lia.
Qed.

Lemma existsb_queueId refs k :
  existsb (fun i => String.eqb i k) refs = true <-> In k refs.
Proof.
  rewrite existsb_exists. split.
  - intros (i & Hi & E). apply String.eqb_eq in E. now subst.
  - intro H. exists k. split; [exact H|apply String.eqb_refl].
Qed.

(** X10.  [getItemsByObjectId] lists every queue of the project once, in
    table order, flags a queue exactly when some row of the project for the
    object belongs to it, and its [totalCount] is the number of flagged
    queues. *)
Theorem getItemsByObjectId_counts project object type db :
  let flags := fst (Queues.getItemsByObjectId project object type db) in
  let totalCount := snd (Queues.getItemsByObjectId project object type db) in
  totalCount = List.length (filter Queues.includesItem flags)
  /\ map (fun f => (Queues.flagId f, Queues.flagName f)) flags
     = Queues.allNamesAndIds project db
  /\ forall f, In f flags ->
       (Queues.includesItem f = true <->
        exists x, In x (items (Queues.itemStore db))
                  /\ projectId x = project /\ objectId x = object
                  /\ objectType x = type /\ queueId x = Queues.flagId f).
Proof.
  intros flags totalCount. subst flags totalCount.
  unfold Queues.getItemsByObjectId. rewrite flagQueues_spec. simpl.
  split; [|split].
  - induction (filter (Queues.inProject project) (Queues.queues db))
      as [|q qs IH]; simpl; [reflexivity|].
    destruct (existsb _ _); simpl; now rewrite IH.
  - unfold Queues.allNamesAndIds. now rewrite map_map.
  - intros f Hf. apply in_map_iff in Hf. destruct Hf as (q & <- & _). simpl.
    rewrite existsb_queueId, in_map_iff. split.
    + intros (x & E & Hx). apply filter_In in Hx. destruct Hx as [Hin R].
      apply referencesObject_iff in R. exists x. tauto.
    + intros (x & Hin & Hp & Ho & Ht & E). exists x. split; [exact E|].
      apply filter_In. split; [exact Hin|]. now apply referencesObject_iff.
Qed.

(** ** The status map of [byObjectId] *)

Lemma mapGet_mapSet k k' v m :
  Queues.mapGet k (Queues.mapSet k' v m) =
  if String.eqb k' k then Some v else Queues.mapGet k m.
Proof.
  induction m as [|[k0 v0] tl IH]; simpl; [reflexivity|].
  destruct (String.eqb k0 k') eqn:E0; simpl.
  - apply String.eqb_eq in E0. subst k0. now destruct (String.eqb k' k).
  - rewrite IH. destruct (String.eqb k0 k) eqn:E1; [|reflexivity].
    apply String.eqb_eq in E1. subst k0. now rewrite String.eqb_sym, E0.
Qed.

Lemma mapSet_keys k v m k0 :
  In k0 (map fst (Queues.mapSet k v m)) <-> k0 = k \/ In k0 (map fst m).
Proof.
  induction m as [|[k1 v1] tl IH]; simpl; [intuition|].
  destruct (String.eqb k1 k) eqn:E; simpl.
  - apply String.eqb_eq in E. subst. intuition.
  - rewrite IH. intuition.
Qed.

Lemma mapSet_NoDup k v m :
  NoDup (map fst m) -> NoDup (map fst (Queues.mapSet k v m)).
Proof.
  induction m as [|[k1 v1] tl IH]; simpl; intro N.
  - repeat constructor. intros [].
  - inversion N as [|? ? Hn Ht]; subst.
    destruct (String.eqb k1 k) eqn:E; simpl.
    + now constructor.
    + constructor; [|now apply IH]. rewrite mapSet_keys.
      intros [->|H]; [|contradiction]. now rewrite String.eqb_refl in E.
Qed.

Lemma mapSet_In k v m k0 v0 :
  In (k0, v0) (Queues.mapSet k v m) -> (k0, v0) = (k, v) \/ In (k0, v0) m.
Proof.
  induction m as [|[k1 v1] tl IH]; simpl; [intuition|].
  destruct (String.eqb k1 k) eqn:E; simpl.
  - apply String.eqb_eq in E. subst. intuition.
  - intuition.
Qed.

Lemma mapGet_In k m v : Queues.mapGet k m = Some v -> In (k, v) m.
Proof.
  induction m as [|[k1 v1] tl IH]; simpl; [discriminate|].
  destruct (String.eqb k1 k) eqn:E.
  - apply String.eqb_eq in E. intro H. inversion H; subst. now left.
  - intro H. right. now apply IH.
Qed.

(** The map built from a list of entries: its keys are the distinct keys of
    the entries, its values come from the entries. *)
Lemma newMap_spec entries :
  NoDup (map fst (Queues.newMap entries))
  /\ (forall k, In k (map fst (Queues.newMap entries))
                <-> In k (map fst entries))
  /\ (forall k v, In (k, v) (Queues.newMap entries) -> In (k, v) entries)
  /\ (forall k, Queues.mapHas k (Queues.newMap entries)
                = existsb (fun i => String.eqb i k) (map fst entries)).
Proof.
  unfold Queues.newMap.
  assert (G : forall m,
    NoDup (map fst m) ->
    let m' := fold_left (fun m e => Queues.mapSet (fst e) (snd e) m)
                        entries m in
    NoDup (map fst m')
    /\ (forall k, In k (map fst m')
                  <-> In k (map fst entries) \/ In k (map fst m))
    /\ (forall k v, In (k, v) m' -> In (k, v) entries \/ In (k, v) m)
    /\ (forall k, Queues.mapHas k m'
                  = existsb (fun i => String.eqb i k) (map fst entries)
                    || Queues.mapHas k m)).
  { induction entries as [|[k0 v0] es IH]; intros m N; simpl.
    - repeat split; auto; intuition.
    - destruct (IH (Queues.mapSet k0 v0 m) (mapSet_NoDup k0 v0 m N))
        as (N' & K & V & H).
      split; [exact N'|]. split; [|split].
      + intro k. rewrite K, mapSet_keys. intuition.
      + intros k v Hin. destruct (V k v Hin) as [Hi|Hi]; [auto|].
        apply mapSet_In in Hi. destruct Hi as [Hi|Hi]; auto.
      + intro k. rewrite H. unfold Queues.mapHas. rewrite mapGet_mapSet.
        destruct (String.eqb k0 k); simpl;
          [now rewrite orb_true_r|].
        reflexivity. }
  destruct (G [] (NoDup_nil _)) as (N & K & V & H).
  split; [exact N|]. split; [|split].
  - intro k. rewrite K. simpl. tauto.
  - intros k v Hin. destruct (V k v Hin) as [Hi|[]]. exact Hi.
  - intro k. rewrite H. simpl. now rewrite orb_false_r.
Qed.

Lemma referenced_keys project object type (rows : list AnnotationQueueItem) :
  map fst (map (fun x => (queueId x, status x))
               (filter (Queues.referencesObject project object type) rows))
  = map queueId (filter (Queues.referencesObject project object type) rows).
Proof. now rewrite map_map. Qed.

(** One entry of [byObjectId]: its flag and where its status comes from. *)
Lemma byObjectId_entry project object type db e :
  In e (fst (Queues.byObjectId project object type db)) ->
  exists q,
    In q (Queues.queues db) /\ Queues.qProjectId q = project
    /\ Queues.qsId e = Queues.qId q /\ Queues.qsName e = Queues.qName q
    /\ Queues.qsIncludesItem e
       = existsb (fun i => String.eqb i (Queues.qId q))
           (map queueId (filter (Queues.referencesObject project object type)
                                (items (Queues.itemStore db))))
    /\ match Queues.qsStatus e with
       | Some st =>
           Queues.qsIncludesItem e = true
           /\ exists x, In x (items (Queues.itemStore db))
                        /\ projectId x = project /\ objectId x = object
                        /\ objectType x = type
                        /\ queueId x = Queues.qsId e /\ status x = st
       | None => Queues.qsIncludesItem e = false
       end.
Proof.
  unfold Queues.byObjectId. simpl. intro H. apply in_map_iff in H.
  destruct H as (q & <- & Hq). apply filter_In in Hq. destruct Hq as [Hq Hp].
  apply String.eqb_eq in Hp. exists q. simpl.
  destruct (newMap_spec
              (map (fun x => (queueId x, status x))
                   (filter (Queues.referencesObject project object type)
                           (items (Queues.itemStore db)))))
    as (_ & _ & V & H).
  repeat split; auto.
  - now rewrite H, referenced_keys.
  - unfold Queues.mapHas.
    destruct (Queues.mapGet (Queues.qId q) _) as [st|] eqn:G; [|reflexivity].
    split; [reflexivity|].
    apply mapGet_In, V, in_map_iff in G. destruct G as (x & E & Hx).
    inversion E; subst. apply filter_In in Hx. destruct Hx as [Hin R].
    apply referencesObject_iff in R. exists x. tauto.
Qed.

(** X11.  [byObjectId] and [getItemsByObjectId] flag the same queues for
    the same object, in the same order; a flagged queue carries the status
    of one of the object's rows in that queue, an unflagged one carries
    none. *)
Theorem byObjectId_flags project object type db :
  map (fun e => (Queues.qsId e, Queues.qsName e, Queues.qsIncludesItem e))
      (fst (Queues.byObjectId project object type db))
  = map (fun f => (Queues.flagId f, Queues.flagName f, Queues.includesItem f))
        (fst (Queues.getItemsByObjectId project object type db))
  /\ forall e, In e (fst (Queues.byObjectId project object type db)) ->
       match Queues.qsStatus e with
       | Some st =>
           Queues.qsIncludesItem e = true
           /\ exists x, In x (items (Queues.itemStore db))
                        /\ projectId x = project /\ objectId x = object
                        /\ objectType x = type
                        /\ queueId x = Queues.qsId e /\ status x = st
       | None => Queues.qsIncludesItem e = false
       end.
Proof.
  split.
  - unfold Queues.byObjectId, Queues.getItemsByObjectId.
    rewrite flagQueues_spec. simpl. rewrite !map_map. apply map_ext.
    intro q. simpl.
    destruct (newMap_spec
                (map (fun x => (queueId x, status x))
                     (filter (Queues.referencesObject project object type)
                             (items (Queues.itemStore db)))))
      as (_ & _ & _ & H).
    now rewrite H, referenced_keys.
  - intros e He.
    destruct (byObjectId_entry _ _ _ _ _ He) as (q & _ & _ & _ & _ & _ & H).
    exact H.
Qed.

(** X12.  The [totalCount] of [byObjectId] is the number of distinct queue
    ids among the project's rows for the object, whether or not a queue of
    that id is listed. *)
Theorem byObjectId_totalCount project object type db :
  exists keys,
    NoDup keys
    /\ List.length keys = snd (Queues.byObjectId project object type db)
    /\ forall k, In k keys <->
         exists x, In x (items (Queues.itemStore db))
                   /\ projectId x = project /\ objectId x = object
                   /\ objectType x = type /\ queueId x = k.
Proof.
  unfold Queues.byObjectId. simpl.
  destruct (newMap_spec
              (map (fun x => (queueId x, status x))
                   (filter (Queues.referencesObject project object type)
                           (items (Queues.itemStore db)))))
    as (N & K & _).
  eexists. split; [exact N|]. split; [apply length_map|].
  intro k. rewrite K, referenced_keys, in_map_iff. split.
  - intros (x & E & Hx). apply filter_In in Hx. destruct Hx as [Hin R].
    apply referencesObject_iff in R. exists x. tauto.
  - intros (x & Hin & Hp & Ho & Ht & E). exists x. split; [exact E|].
    apply filter_In. split; [exact Hin|]. now apply referencesObject_iff.
Qed.

(** A selection of queues with unique ids has unique ids. *)
Lemma uniqueQueueIds_filter (keep : Queues.AnnotationQueue -> bool) qs :
  Queues.uniqueQueueIds qs -> Queues.uniqueQueueIds (filter keep qs).
Proof.
  unfold Queues.uniqueQueueIds. intro U.
  induction qs as [|q qs IH]; simpl; [constructor|].
  simpl in U. apply NoDup_cons_iff in U. destruct U as [Hq U].
  destruct (keep q); simpl; [|now apply IH].
  apply NoDup_cons; [|now apply IH].
  intro H. apply Hq. apply in_map_iff in H. destruct H as (x & E & Hx).
  apply filter_In in Hx. rewrite <- E. apply in_map. tauto.
Qed.

(** X13.  With unique queue ids, the [totalCount] of [getItemsByObjectId]
    never exceeds that of [byObjectId]; the two are equal when every row of
    the project for the object belongs to a queue of the project. *)
Theorem totalCounts_compared project object type db :
  Queues.uniqueQueueIds (Queues.queues db) ->
  (snd (Queues.getItemsByObjectId project object type db)
   <= snd (Queues.byObjectId project object type db))%nat
  /\ ((forall x, In x (items (Queues.itemStore db)) ->
         projectId x = project -> objectId x = object ->
         objectType x = type ->
         exists q, In q (Queues.queues db) /\ Queues.qId q = queueId x
                   /\ Queues.qProjectId q = project) ->
      snd (Queues.getItemsByObjectId project object type db)
      = snd (Queues.byObjectId project object type db)).
Proof.
  intro U. unfold Queues.getItemsByObjectId, Queues.byObjectId.
  rewrite flagQueues_spec. simpl.
  destruct (newMap_spec
              (map (fun x => (queueId x, status x))
                   (filter (Queues.referencesObject project object type)
                           (items (Queues.itemStore db)))))
    as (N & K & _).
  set (m := Queues.newMap _) in *.
  set (refs := map queueId
                   (filter (Queues.referencesObject project object type)
                           (items (Queues.itemStore db)))).
  set (flagged :=
         filter (fun q => existsb (fun i => String.eqb i (Queues.qId q)) refs)
                (filter (Queues.inProject project) (Queues.queues db))).
  assert (Lm : List.length m = List.length (map fst m))
    by (symmetry; apply length_map).
  assert (Lf : List.length flagged = List.length (map Queues.qId flagged))
    by (symmetry; apply length_map).
  assert (Nf : NoDup (map Queues.qId flagged))
    by (unfold flagged; now apply uniqueQueueIds_filter, uniqueQueueIds_filter).
  assert (I1 : incl (map Queues.qId flagged) (map fst m)).
  { intros k Hk. apply in_map_iff in Hk. destruct Hk as (q & <- & Hq).
    apply filter_In in Hq. destruct Hq as [_ Hq].
    apply existsb_queueId in Hq. apply K. now rewrite referenced_keys. }
  rewrite Lm, Lf. split; [now apply NoDup_incl_length|].
  intro Listed. apply Nat.le_antisymm; [now apply NoDup_incl_length|].
  apply NoDup_incl_length; [exact N|].
  intros k Hk. apply K in Hk. rewrite referenced_keys in Hk.
  apply in_map_iff in Hk. destruct Hk as (x & <- & Hx).
  pose proof Hx as Hx'. apply filter_In in Hx'. destruct Hx' as [Hin R].
  apply referencesObject_iff in R. destruct R as (Hp & Ho & Ht).
  destruct (Listed x Hin Hp Ho Ht) as (q & Hq & Eq & Pq).
  rewrite <- Eq. apply in_map. unfold flagged. apply filter_In. split.
  - apply filter_In. split; [exact Hq|].
    unfold Queues.inProject. rewrite Pq. apply String.eqb_refl.
  - apply existsb_queueId. rewrite Eq. unfold refs. now apply in_map.
Qed.

Lemma totalCounts_compared_witness :
  let q1 := Queues.mkQueue "q1" "first" None [] "p" 1 in
  let a := newItem "i1" "p" "q1" "A" TRACE 10 in
  let b := newItem "i2" "p" "gone" "A" TRACE 20 in
  let db := Queues.mkDb [q1] [] [] (Sample.store [a; b]) in
  (snd (Queues.getItemsByObjectId "p" "A" TRACE db)
   <= snd (Queues.byObjectId "p" "A" TRACE db))%nat
  /\ snd (Queues.getItemsByObjectId "p" "A" TRACE db) = 1%nat
  /\ snd (Queues.byObjectId "p" "A" TRACE db) = 2%nat.
Proof.
  intros q1 a b db.
  destruct (totalCounts_compared "p" "A" TRACE db) as [H _].
  - unfold Queues.uniqueQueueIds. simpl. repeat constructor. intros [].
  - split; [exact H|]. split; reflexivity.
Defined.

(** X14.  After [complete] for (queue, object), [byObjectId] reports
    [COMPLETED] for that queue whenever it flags it: every row that could
    supply the status has been completed. *)
Theorem complete_then_byObjectId session project queue object type now db e :
  let db' := Queues.mkDb (Queues.queues db) (Queues.scoreConfigs db)
               (Queues.queueAuditLogs db)
               (snd (complete session project queue object type now
                              (Queues.itemStore db))) in
  In e (fst (Queues.byObjectId project object type db')) ->
  Queues.qsId e = queue ->
  Queues.qsIncludesItem e = true ->
  Queues.qsStatus e = Some COMPLETED.
Proof.
  intros db' He Eq Inc.
  destruct (byObjectId_entry _ _ _ _ _ He) as (q & _ & _ & _ & _ & _ & H).
  destruct (Queues.qsStatus e) as [st|]; [|congruence].
  destruct H as (_ & x & Hin & Hp & Ho & Ht & Hq & Hst).
  simpl in Hin.
  assert (W : completeWhere queue project object type x = true).
  { unfold completeWhere.
    rewrite Hq, Eq, Hp, Ho, Ht, !String.eqb_refl, objectType_eqb_refl.
    reflexivity. }
  destruct (complete_marks _ _ _ _ _ _ _ _ Hin W) as (Hc & _). congruence.
Qed.

Lemma complete_then_byObjectId_witness :
  let q1 := Queues.mkQueue "q" "first" None [] "p" 1 in
  let db := Queues.mkDb [q1] [] []
              (Sample.store [Sample.pending "i1" "A" 10]) in
  let db' := Queues.mkDb [q1] [] []
               (snd (complete Sample.alice "p" "q" "A" TRACE 100
                              (Queues.itemStore db))) in
  let e := Queues.mkQueueStatus "q" "first" true (Some COMPLETED) in
  fst (Queues.byObjectId "p" "A" TRACE db') = [e]
  /\ Queues.qsStatus e = Some COMPLETED.
Proof.
  intros q1 db db' e. split; [reflexivity|].
  apply (complete_then_byObjectId Sample.alice "p" "q" "A" TRACE 100 db).
  - simpl. left. reflexivity.
  - reflexivity.
  - reflexivity.
Defined.

(** ** Listing the queues of a project *)

Lemma insertNewestFirst_perm q l :
  Permutation (Queues.insertNewestFirst q l) (q :: l).
Proof.
  induction l as [|h t IH]; simpl; [reflexivity|].
  destruct (Queues.qCreatedAt h <=? Queues.qCreatedAt q); [reflexivity|].
  rewrite IH. apply perm_swap.
Qed.

Lemma newestFirst_perm l : Permutation (Queues.newestFirst l) l.
Proof.
  induction l as [|q l IH]; simpl; [constructor|].
  rewrite insertNewestFirst_perm. now constructor.
Qed.

Lemma insertNewestFirst_sorted q l :
  StronglySorted (fun a b => Queues.qCreatedAt b <= Queues.qCreatedAt a) l ->
  StronglySorted (fun a b => Queues.qCreatedAt b <= Queues.qCreatedAt a)
                 (Queues.insertNewestFirst q l).
Proof.
  induction 1 as [|h t Ht IH Hf]; simpl; [repeat constructor|].
  destruct (Queues.qCreatedAt h <=? Queues.qCreatedAt q) eqn:C.
  - apply Z.leb_le in C. constructor; [now constructor|].
    constructor; [exact C|]. rewrite Forall_forall in *.
    intros x Hx. specialize (Hf x Hx). simpl in Hf. lia.
  - apply Z.leb_gt in C. constructor; [exact IH|].
    rewrite Forall_forall in *. intros x Hx.
    apply (Permutation_in _ (insertNewestFirst_perm q t)) in Hx.
    destruct Hx as [<-|Hx]; [lia|now apply Hf].
Qed.

Lemma newestFirst_sorted l :
  StronglySorted (fun a b => Queues.qCreatedAt b <= Queues.qCreatedAt a)
                 (Queues.newestFirst l).
Proof.
  induction l as [|q l IH]; simpl; [constructor|].
  now apply insertNewestFirst_sorted.
Qed.

Lemma StronglySorted_app_inv {A} (R : A -> A -> Prop) l1 l2 :
  StronglySorted R (l1 ++ l2) -> StronglySorted R l1 /\ StronglySorted R l2.
Proof.
  induction l1 as [|a l1 IH]; simpl; intro H; [split; [constructor|exact H]|].
  apply StronglySorted_inv in H. destruct H as [H Hf].
  destruct (IH H) as [H1 H2]. split; [|exact H2].
  constructor; [exact H1|]. apply Forall_app in Hf. tauto.
Qed.

Lemma paginate_sorted {A} (R : A -> A -> Prop) page limit (l : list A) :
  StronglySorted R l -> StronglySorted R (Queues.paginate page limit l).
Proof.
  intro H. unfold Queues.paginate.
  assert (S : forall n l0, StronglySorted R l0 ->
                           StronglySorted R (skipn n l0)).
  { intros n l0 H0. rewrite <- (firstn_skipn n l0) in H0.
    now apply StronglySorted_app_inv in H0. }
  assert (F : forall n l0, StronglySorted R l0 ->
                           StronglySorted R (firstn n l0)).
  { intros n l0 H0. rewrite <- (firstn_skipn n l0) in H0.
    now apply StronglySorted_app_inv in H0. }
  destruct (Queues.truthy page && Queues.truthy limit),
           (Queues.truthy limit); auto.
Qed.

Lemma paginate_incl {A} page limit (l : list A) x :
  In x (Queues.paginate page limit l) -> In x l.
Proof.
  unfold Queues.paginate.
  assert (S : forall n (l0 : list A), In x (skipn n l0) -> In x l0).
  { intros n l0 H. rewrite <- (firstn_skipn n l0). apply in_or_app. now right. }
  assert (F : forall n (l0 : list A), In x (firstn n l0) -> In x l0).
  { intros n l0 H. rewrite <- (firstn_skipn n l0). apply in_or_app. now left. }
  destruct (Queues.truthy page && Queues.truthy limit),
           (Queues.truthy limit); eauto.
Qed.

Lemma paginate_map {A B} (f : A -> B) page limit (l : list A) :
  Queues.paginate page limit (map f l) = map f (Queues.paginate page limit l).
Proof.
  unfold Queues.paginate.
  destruct (Queues.truthy page && Queues.truthy limit),
           (Queues.truthy limit);
    now rewrite ?skipn_map, ?firstn_map.
Qed.

Lemma countItems_sum project q rows :
  (Queues.countItems project COMPLETED q rows
   + Queues.countItems project PENDING q rows)%nat
  = List.length (filter (fun x => String.eqb (queueId x) (Queues.qId q)
                                  && String.eqb (projectId x) project) rows).
Proof.
  unfold Queues.countItems. induction rows as [|x l IH]; simpl; [reflexivity|].
  destruct (String.eqb (queueId x) (Queues.qId q)
            && String.eqb (projectId x) project); simpl; [|exact IH].
  destruct (status x); simpl; lia.
Qed.

(** The row [all] builds for a queue. *)
Lemma all_row project page limit db row :
  In row (snd (Queues.all project page limit db)) ->
  exists q,
    In q (Queues.queues db) /\ Queues.qProjectId q = project
    /\ row = Queues.mkQueueRow (Queues.qId q) (Queues.qName q)
               (Queues.qDescription q)
               (map (fun c => (Queues.cfgId c, Queues.cfgName c,
                               Queues.cfgDataType c))
                    (filter (fun c => existsb (String.eqb (Queues.cfgId c))
                                              (Queues.qScoreConfigs q))
                            (filter (fun c => String.eqb (Queues.cfgProjectId c)
                                                         project)
                                    (Queues.scoreConfigs db))))
               (Queues.qCreatedAt q)
               (Queues.countItems project COMPLETED q
                                  (items (Queues.itemStore db)))
               (Queues.countItems project PENDING q
                                  (items (Queues.itemStore db))).
Proof.
  unfold Queues.all. simpl. intro H. apply in_map_iff in H.
  destruct H as (q & <- & Hq). apply paginate_incl in Hq.
  apply (Permutation_in _ (newestFirst_perm _)) in Hq.
  apply filter_In in Hq. destruct Hq as [Hq Hp]. apply String.eqb_eq in Hp.
  exists q. auto.
Qed.

(** X15.  Every row of [all] stands for a queue of the project; its two
    counters add up to the number of rows of the item table that belong to
    that queue within the project, and its score configs are configs of the
    project whose id the queue lists. *)
Theorem all_counts project page limit db row :
  In row (snd (Queues.all project page limit db)) ->
  exists q,
    In q (Queues.queues db) /\ Queues.qProjectId q = project
    /\ Queues.rowId row = Queues.qId q
    /\ (Queues.countCompletedItems row + Queues.countPendingItems row)%nat
       = List.length
           (filter (fun x => String.eqb (queueId x) (Queues.qId q)
                             && String.eqb (projectId x) project)
                   (items (Queues.itemStore db)))
    /\ forall c, In c (Queues.rowScoreConfigs row) ->
         exists cfg, In cfg (Queues.scoreConfigs db)
                     /\ Queues.cfgProjectId cfg = project
                     /\ In (Queues.cfgId cfg) (Queues.qScoreConfigs q)
                     /\ c = (Queues.cfgId cfg, Queues.cfgName cfg,
                             Queues.cfgDataType cfg).
Proof.
  intro H. destruct (all_row _ _ _ _ _ H) as (q & Hq & Hp & ->).
  exists q. simpl. repeat split; auto.
  - apply countItems_sum.
  - intros c Hc. apply in_map_iff in Hc. destruct Hc as (cfg & <- & Hcfg).
    apply filter_In in Hcfg. destruct Hcfg as [Hcfg L].
    apply filter_In in Hcfg. destruct Hcfg as [Hcfg P].
    apply String.eqb_eq in P. apply existsb_exists in L.
    destruct L as (i & Hi & E). apply String.eqb_eq in E. subst i.
    exists cfg. auto.
Qed.

Lemma all_counts_witness :
  let q1 := Queues.mkQueue "q" "first" None ["c1"; "c9"] "p" 1 in
  let c1 := Queues.mkScoreConfig "c1" "quality" "NUMERIC" "p" in
  let c9 := Queues.mkScoreConfig "c9" "foreign" "NUMERIC" "other" in
  let rows := [setCompleted 50 "bob" (Sample.pending "i1" "A" 10);
               Sample.pending "i2" "B" 20;
               newItem "i3" "other" "q" "C" TRACE 30] in
  let db := Queues.mkDb [q1] [c1; c9] [] (Sample.store rows) in
  let row := Queues.mkQueueRow "q" "first" None [("c1", "quality", "NUMERIC")]
                               1 1 1 in
  exists q,
    In q [q1] /\ Queues.qProjectId q = "p"
    /\ "q" = Queues.qId q
    /\ (1 + 1)%nat
       = List.length (filter (fun x => String.eqb (queueId x) (Queues.qId q)
                                       && String.eqb (projectId x) "p") rows)
    /\ forall c, In c [("c1", "quality", "NUMERIC")] ->
         exists cfg, In cfg [c1; c9]
                     /\ Queues.cfgProjectId cfg = "p"
                     /\ In (Queues.cfgId cfg) (Queues.qScoreConfigs q)
                     /\ c = (Queues.cfgId cfg, Queues.cfgName cfg,
                             Queues.cfgDataType cfg).
Proof.
  intros q1 c1 c9 rows db row.
  apply (all_counts "p" None None db row).
  left. reflexivity.
Defined.

(** X16.  [all] returns the project's queues newest first and its
    [totalCount] is the number of queues of the project, whatever the
    pagination; without a [limit] the [page] is ignored and every queue of
    the project is listed exactly once. *)
Theorem all_newest_first project page limit db :
  StronglySorted (fun a b => Queues.rowCreatedAt b <= Queues.rowCreatedAt a)
                 (snd (Queues.all project page limit db))
  /\ fst (Queues.all project page limit db)
     = List.length (filter (Queues.inProject project) (Queues.queues db))
  /\ Permutation (map Queues.rowId (snd (Queues.all project page None db)))
                 (map Queues.qId (filter (Queues.inProject project)
                                         (Queues.queues db))).
Proof.
  unfold Queues.all. simpl. split; [|split; [reflexivity|]].
  - pose proof (paginate_sorted _ page limit _
                  (newestFirst_sorted (filter (Queues.inProject project)
                                              (Queues.queues db)))) as S.
    induction S as [|q l Hl IH Hf]; simpl; constructor; [exact IH|].
    rewrite Forall_forall in *. intros r Hr. apply in_map_iff in Hr.
    destruct Hr as (q' & <- & Hq'). simpl. now apply Hf.
  - rewrite map_map. simpl. unfold Queues.paginate. simpl.
    rewrite andb_false_r. apply Permutation_map, newestFirst_perm.
Qed.

(** X17.  Pagination of [all]: with a positive [limit] the result is the
    slice of the full listing that starts at [page * limit] (at 0 when
    [page] is absent) and has at most [limit] rows; with [limit] absent or
    0 the full listing is returned. *)
Theorem all_page_slice project page limit db :
  let full := snd (Queues.all project None None db) in
  snd (Queues.all project page limit db)
  = match limit with
    | Some (S l) => firstn (S l) (skipn (Queues.numberOf page * S l) full)
    | _ => full
    end
  /\ match limit with
     | Some (S l) =>
         (List.length (snd (Queues.all project page limit db)) <= S l)%nat
     | _ => True
     end.
Proof.
  intro full. subst full. unfold Queues.all. simpl.
  set (f := fun q => Queues.mkQueueRow _ _ _ _ _ _ _).
  set (l0 := Queues.newestFirst _).
  assert (E : map f (Queues.paginate page limit l0)
              = match limit with
                | Some (S l) =>
                    firstn (S l) (skipn (Queues.numberOf page * S l)
                                        (map f l0))
                | _ => map f l0
                end).
  { rewrite <- paginate_map. unfold Queues.paginate.
    destruct limit as [[|l]|]; simpl; rewrite ?andb_false_r; try reflexivity.
    rewrite andb_true_r. destruct page as [[|p]|]; reflexivity. }
  split; [exact E|]. rewrite E.
  destruct limit as [[|l]|]; auto. apply firstn_le_length.
Qed.

(** ** Selecting one row by a unique key *)

Section ByKey.
Context {A : Type} (key : A -> Id) (sel : A -> bool).
Variables (pre post : list A) (x : A).
Hypothesis sel_key : forall y, sel y = true -> key y = key x.
Hypothesis sel_x : sel x = true.
Hypothesis keys_unique : NoDup (map key (pre ++ x :: post)).

Lemma by_key_others y : In y (pre ++ post) -> sel y = false.
Proof.
  intro Hy. destruct (sel y) eqn:S; [|reflexivity]. exfalso.
  rewrite map_app in keys_unique. simpl in keys_unique.
  apply NoDup_remove_2 in keys_unique. apply keys_unique.
  rewrite <- map_app, <- (sel_key y S). now apply in_map.
Qed.

Lemma by_key_find : find sel (pre ++ x :: post) = Some x.
Proof.
  assert (H : forall y, In y pre -> sel y = false)
    by (intros y Hy; apply by_key_others, in_or_app; now left).
  clear -H sel_x. induction pre as [|a l IH]; simpl; [now rewrite sel_x|].
  rewrite (H a (or_introl eq_refl)). apply IH. intros y Hy. apply H. now right.
Qed.

Lemma by_key_map (g : A -> A) :
  map (fun y => if sel y then g y else y) (pre ++ x :: post)
  = pre ++ g x :: post.
Proof.
  rewrite map_app. simpl. rewrite sel_x. f_equal; [|f_equal];
    apply map_if_false; intros y Hy; apply by_key_others, in_or_app; auto.
Qed.

Lemma by_key_filter :
  filter (fun y => negb (sel y)) (pre ++ x :: post) = pre ++ post.
Proof.
  rewrite filter_app. simpl. rewrite sel_x. simpl. rewrite <- filter_app.
  apply filter_all_true. intros y Hy. now rewrite (by_key_others y Hy).
Qed.

End ByKey.

Lemma byQueueId_iff queue project q :
  Queues.byQueueId queue project q = true <->
  Queues.qId q = queue /\ Queues.qProjectId q = project.
Proof.
  unfold Queues.byQueueId. now rewrite andb_true_iff, !String.eqb_eq.
Qed.

Lemma find_split {A} (f : A -> bool) (l : list A) x :
  find f l = Some x ->
  exists pre post, l = pre ++ x :: post /\ f x = true.
Proof.
  induction l as [|a l IH]; simpl; [discriminate|].
  destruct (f a) eqn:Fa.
  - intro H. inversion H; subst. now exists [], l.
  - intro H. destruct (IH H) as (pre & post & -> & Fx).
    now exists (a :: pre), post.
Qed.

Lemma find_after_none {A} (f : A -> bool) (l1 l2 : list A) :
  (forall x, In x l1 -> f x = false) -> find f (l1 ++ l2) = find f l2.
Proof.
  induction l1 as [|a l IH]; simpl; intro H; [reflexivity|].
  rewrite (H a (or_introl eq_refl)). apply IH. intros x Hx. apply H. now right.
Qed.

(** ** Creating, updating and deleting a queue *)

Lemma queue_create_unfold session project name description configs newId now
    db :
  hasAccess session project "annotationQueues:CUD" = true ->
  Queues.create session project name description configs newId now db =
  let d := Queues.mkQueue newId name
             (Queues.storedDescription description None) configs project now in
  match find (fun q => String.eqb (Queues.qProjectId q) project
                       && String.eqb (Queues.qName q) name)
             (Queues.queues db) with
  | Some _ =>
      (Queues.Throw
         (Queues.TRPCError Queues.CONFLICT
            "A queue with this name already exists in the project"), db)
  | None =>
      if existsb (Queues.queueConflicts d) (Queues.queues db)
      then (Queues.Throw
              (Queues.TRPCError Queues.INTERNAL_SERVER_ERROR
                 "Creating annotation queue failed."), db)
      else (Queues.Return d,
            Queues.mkDb (Queues.queues db ++ [d]) (Queues.scoreConfigs db)
              (Queues.queueAuditLogs db
               ++ [Queues.mkQueueAudit newId "create" (userId session)
                                       None (Some d)])
              (Queues.itemStore db))
  end.
Proof.
  intro Acc.
  unfold Queues.create, Queues.tryCatch, Queues.bind,
    Queues.throwIfNoProjectAccess, Queues.queueFindFirst, Queues.queueCreate.
  rewrite Acc. simpl.
  destruct (find _ (Queues.queues db)); [reflexivity|].
  destruct (existsb _ (Queues.queues db)); reflexivity.
Qed.

(** X18.  Creating a queue under a name that a queue of the project already
    has is refused with [CONFLICT]: the error passes the [catch] block
    unchanged, no queue is added and nothing is logged. *)
Theorem queue_create_conflict session project name description configs newId
    now db :
  hasAccess session project "annotationQueues:CUD" = true ->
  (exists q, In q (Queues.queues db) /\ Queues.qProjectId q = project
             /\ Queues.qName q = name) ->
  Queues.create session project name description configs newId now db
  = (Queues.Throw
       (Queues.TRPCError Queues.CONFLICT
          "A queue with this name already exists in the project"), db).
Proof.
  intros Acc (q & Hq & Hp & Hn).
  rewrite (queue_create_unfold _ _ _ _ _ _ _ _ Acc).
  simpl.
  destruct (find _ (Queues.queues db)) eqn:F; [reflexivity|].
  pose proof (find_none _ _ F q Hq) as N. simpl in N.
  now rewrite Hp, Hn, !String.eqb_refl in N.
Qed.

Lemma queue_create_conflict_witness :
  let q1 := Queues.mkQueue "q1" "triage" None [] "p" 1 in
  let db := Queues.mkDb [q1] [] [] (Sample.store []) in
  Queues.create Sample.alice "p" "triage" None [] "q2" 5 db
  = (Queues.Throw
       (Queues.TRPCError Queues.CONFLICT
          "A queue with this name already exists in the project"), db).
Proof.
  intros q1 db.
  apply (queue_create_conflict Sample.alice "p" "triage" None [] "q2" 5 db).
  - reflexivity.
  - exists q1. simpl. auto.
Defined.

(** X19.  Creating a queue under a name that is free in the project, with a
    new id, appends the queue, logs one "create" entry that carries it, and
    the queue can be read back: [allNamesAndIds] lists it last and [byId]
    returns it.  An absent description is stored as null. *)
Theorem queue_create_then_read session project name description configs newId
    now db :
  hasAccess session project "annotationQueues:CUD" = true ->
  (forall q, In q (Queues.queues db) -> Queues.qProjectId q = project ->
             Queues.qName q <> name) ->
  (forall q, In q (Queues.queues db) -> Queues.qId q <> newId) ->
  let d := Queues.mkQueue newId name
             (match description with Some v => v | None => None end)
             configs project now in
  exists db',
    Queues.create session project name description configs newId now db
    = (Queues.Return d, db')
    /\ Queues.queues db' = Queues.queues db ++ [d]
    /\ Queues.queueAuditLogs db'
       = Queues.queueAuditLogs db
         ++ [Queues.mkQueueAudit newId "create" (userId session) None (Some d)]
    /\ Queues.itemStore db' = Queues.itemStore db
    /\ Queues.allNamesAndIds project db'
       = Queues.allNamesAndIds project db ++ [(newId, name)]
    /\ forall (V : Type) (validate : list Queues.ScoreConfig -> V),
         fst (Queues.byId validate project newId db') = Some d.
Proof.
  intros Acc Free Fresh d. rewrite (queue_create_unfold _ _ _ _ _ _ _ _ Acc).
  cbv zeta. unfold Queues.storedDescription. fold d.
  assert (F : find (fun q => String.eqb (Queues.qProjectId q) project
                             && String.eqb (Queues.qName q) name)
                   (Queues.queues db) = None).
  { apply find_all_false. intros q Hq.
    destruct (String.eqb (Queues.qProjectId q) project) eqn:P; [|reflexivity].
    apply String.eqb_eq in P. simpl. apply String.eqb_neq. now apply Free. }
  assert (C : existsb (Queues.queueConflicts d) (Queues.queues db) = false).
  { destruct (existsb _ _) eqn:E; [|reflexivity]. exfalso.
    apply existsb_exists in E. destruct E as (q & Hq & E).
    unfold Queues.queueConflicts in E. simpl in E.
    apply orb_true_iff in E. destruct E as [E|E].
    - apply String.eqb_eq in E. now apply (Fresh q Hq).
    - apply andb_true_iff in E. destruct E as [P N].
      apply String.eqb_eq in P, N. now apply (Free q Hq). }
  rewrite F, C. eexists. split; [reflexivity|]. simpl.
  repeat split.
  - unfold Queues.allNamesAndIds. simpl. rewrite filter_app, map_app. simpl.
    unfold Queues.inProject at 2. simpl. now rewrite String.eqb_refl.
  - intros V validate. unfold Queues.byId. simpl.
    rewrite find_after_none.
    + simpl. now rewrite !String.eqb_refl.
    + intros q Hq. apply andb_false_iff. left. apply String.eqb_neq.
      now apply Fresh.
Qed.

Lemma queue_create_then_read_witness :
  let q1 := Queues.mkQueue "q1" "triage" None [] "p" 1 in
  let db := Queues.mkDb [q1] [] [] (Sample.store []) in
  let d := Queues.mkQueue "q2" "review" None ["c1"] "p" 5 in
  exists db',
    Queues.create Sample.alice "p" "review" None ["c1"] "q2" 5 db
    = (Queues.Return d, db')
    /\ Queues.queues db' = [q1] ++ [d]
    /\ Queues.queueAuditLogs db'
       = [] ++ [Queues.mkQueueAudit "q2" "create" "alice" None (Some d)]
    /\ Queues.itemStore db' = Sample.store []
    /\ Queues.allNamesAndIds "p" db'
       = Queues.allNamesAndIds "p" db ++ [("q2", "review")]
    /\ forall (V : Type) (validate : list Queues.ScoreConfig -> V),
         fst (Queues.byId validate "p" "q2" db') = Some d.
Proof.
  intros q1 db d.
  apply (queue_create_then_read Sample.alice "p" "review" None ["c1"] "q2" 5
                                db).
  - reflexivity.
  - intros q [<-|[]] _. discriminate.
  - intros q [<-|[]]. discriminate.
Defined.

Lemma ForallOrdPairs_snoc {A} (R : A -> A -> Prop) l d :
  ForallOrdPairs R l -> (forall a, In a l -> R a d) ->
  ForallOrdPairs R (l ++ [d]).
Proof.
  induction 1 as [|a l Hf _ IH]; simpl; intro H.
  - repeat constructor.
  - constructor.
    + apply Forall_app. split; [exact Hf|]. constructor; [|constructor].
      apply H. now left.
    + apply IH. intros b Hb. apply H. now right.
Qed.

(** X20.  [create] keeps queue names unique within each project: whatever
    the caller and the input, if no two queues of one project share a name
    before the call, none do after it. *)
Theorem queue_create_keeps_names_unique session project name description
    configs newId now db :
  Queues.uniqueNames (Queues.queues db) ->
  Queues.uniqueNames
    (Queues.queues
       (snd (Queues.create session project name description configs newId now
                           db))).
Proof.
  intro U.
  destruct (hasAccess session project "annotationQueues:CUD") eqn:Acc.
  2:{ unfold Queues.create, Queues.tryCatch, Queues.bind,
        Queues.throwIfNoProjectAccess. now rewrite Acc. }
  rewrite (queue_create_unfold _ _ _ _ _ _ _ _ Acc). cbv zeta.
  destruct (find _ (Queues.queues db)) eqn:F; [exact U|].
  destruct (existsb _ (Queues.queues db)); [exact U|]. simpl.
  apply ForallOrdPairs_snoc; [exact U|].
  intros q Hq Hp Hn. simpl in Hp, Hn.
  pose proof (find_none _ _ F q Hq) as N. simpl in N.
  now rewrite Hp, Hn, !String.eqb_refl in N.
Qed.

Lemma queue_create_keeps_names_unique_witness :
  let q1 := Queues.mkQueue "q1" "triage" None [] "p" 1 in
  let db := Queues.mkDb [q1] [] [] (Sample.store []) in
  Queues.uniqueNames
    (Queues.queues
       (snd (Queues.create Sample.alice "p" "review" None [] "q2" 5 db))).
Proof.
  intros q1 db.
  apply (queue_create_keeps_names_unique Sample.alice "p" "review" None []
                                         "q2" 5 db).
  repeat constructor.
Defined.

(** X21.  [update] and [delete] on a queue id that does not exist in the
    project fail with [INTERNAL_SERVER_ERROR]: the NotFound error thrown by
    [update], and the store's own record-not-found error in [delete], are
    both replaced by the [catch] block.  Nothing is changed or logged. *)
Theorem queue_missing_is_internal_error session project queue db :
  hasAccess session project "annotationQueues:CUD" = true ->
  (forall q, In q (Queues.queues db) ->
             ~ (Queues.qId q = queue /\ Queues.qProjectId q = project)) ->
  (forall name description configs,
     Queues.update session project queue name description configs db
     = (Queues.Throw
          (Queues.TRPCError Queues.INTERNAL_SERVER_ERROR
             "Updating annotation queue failed."), db))
  /\ (forall fk,
        Queues.delete fk session project queue db
        = (Queues.Throw
             (Queues.TRPCError Queues.INTERNAL_SERVER_ERROR
                "Deleting annotation queue failed."), db)).
Proof.
  intros Acc Missing.
  assert (F : find (Queues.byQueueId queue project) (Queues.queues db) = None).
  { apply find_all_false. intros q Hq.
    destruct (Queues.byQueueId queue project q) eqn:B; [|reflexivity].
    apply byQueueId_iff in B. now destruct (Missing q Hq). }
  split; intros.
  - unfold Queues.update, Queues.tryCatch, Queues.bind,
      Queues.throwIfNoProjectAccess, Queues.queueFindFirst.
    rewrite Acc. simpl. now rewrite F.
  - unfold Queues.delete, Queues.tryCatch, Queues.bind,
      Queues.throwIfNoProjectAccess, Queues.queueDelete.
    rewrite Acc. simpl. now rewrite F.
Qed.

Lemma queue_missing_is_internal_error_witness :
  let q1 := Queues.mkQueue "q1" "triage" None [] "other" 1 in
  let db := Queues.mkDb [q1] [] [] (Sample.store []) in
  Queues.update Sample.alice "p" "q1" "renamed" None [] db
  = (Queues.Throw
       (Queues.TRPCError Queues.INTERNAL_SERVER_ERROR
          "Updating annotation queue failed."), db)
  /\ Queues.delete Queues.Cascade Sample.alice "p" "q1" db
     = (Queues.Throw
          (Queues.TRPCError Queues.INTERNAL_SERVER_ERROR
             "Deleting annotation queue failed."), db).
Proof.
  intros q1 db.
  destruct (queue_missing_is_internal_error Sample.alice "p" "q1" db)
    as [Hu Hd].
  - reflexivity.
  - intros q [<-|[]] [_ H]. discriminate.
  - split; [apply Hu|apply Hd].
Defined.

Lemma queue_update_unfold session project queue name description configs db :
  hasAccess session project "annotationQueues:CUD" = true ->
  Queues.update session project queue name description configs db =
  let data := Queues.setQueueData name description configs in
  match find (Queues.byQueueId queue project) (Queues.queues db) with
  | None =>
      (Queues.Throw
         (Queues.TRPCError Queues.INTERNAL_SERVER_ERROR
            "Updating annotation queue failed."), db)
  | Some q =>
      if existsb (fun o => negb (String.eqb (Queues.qId o) (Queues.qId q))
                           && Queues.queueConflicts (data q) o)
                 (Queues.queues db)
      then (Queues.Throw
              (Queues.TRPCError Queues.INTERNAL_SERVER_ERROR
                 "Updating annotation queue failed."), db)
      else (Queues.Return (data q),
            Queues.mkDb
              (map (fun o => if Queues.byQueueId queue project o
                             then data o else o) (Queues.queues db))
              (Queues.scoreConfigs db)
              (Queues.queueAuditLogs db
               ++ [Queues.mkQueueAudit (Queues.qId q) "update"
                     (userId session) (Some q) (Some (data q))])
              (Queues.itemStore db))
  end.
Proof.
  intro Acc.
  unfold Queues.update, Queues.tryCatch, Queues.bind,
    Queues.throwIfNoProjectAccess, Queues.queueFindFirst, Queues.queueUpdate.
  rewrite Acc. simpl.
  destruct (find (Queues.byQueueId queue project) (Queues.queues db)) eqn:F;
    [|reflexivity].
  simpl. rewrite F. destruct (existsb _ (Queues.queues db)); reflexivity.
Qed.

(** X22.  Updating an existing queue to a name no other queue of the
    project has rewrites that queue only: [name] and [scoreConfigs] are
    replaced, [description] too unless the field is absent, while [id],
    project and [createdAt] stay; every other queue and the item table are
    as before, and one "update" entry records the queue before and after. *)
Theorem queue_update_frame session project queue name description configs
    db q0 :
  hasAccess session project "annotationQueues:CUD" = true ->
  Queues.uniqueQueueIds (Queues.queues db) ->
  In q0 (Queues.queues db) ->
  Queues.qId q0 = queue -> Queues.qProjectId q0 = project ->
  (forall o, In o (Queues.queues db) -> Queues.qId o <> queue ->
             Queues.qProjectId o = project -> Queues.qName o <> name) ->
  let q' := Queues.mkQueue queue name
              (match description with
               | Some v => v
               | None => Queues.qDescription q0
               end)
              configs project (Queues.qCreatedAt q0) in
  exists pre post db',
    Queues.update session project queue name description configs db
    = (Queues.Return q', db')
    /\ Queues.queues db = pre ++ q0 :: post
    /\ Queues.queues db' = pre ++ q' :: post
    /\ Queues.queueAuditLogs db'
       = Queues.queueAuditLogs db
         ++ [Queues.mkQueueAudit queue "update" (userId session)
                                 (Some q0) (Some q')]
    /\ Queues.itemStore db' = Queues.itemStore db
    /\ Queues.scoreConfigs db' = Queues.scoreConfigs db.
Proof.
  intros Acc U Hin Hid Hp Free q'.
  apply in_split in Hin. destruct Hin as (pre & post & Hs).
  assert (B0 : Queues.byQueueId queue project q0 = true)
    by now apply byQueueId_iff.
  assert (K : forall y, Queues.byQueueId queue project y = true ->
                        Queues.qId y = Queues.qId q0).
  { intros y B. apply byQueueId_iff in B. destruct B as [B _]. congruence. }
  unfold Queues.uniqueQueueIds in U. rewrite Hs in U.
  pose proof (by_key_find Queues.qId _ pre post q0 K B0 U) as F.
  pose proof (by_key_map Queues.qId _ pre post q0 K B0 U
                (Queues.setQueueData name description configs)) as M.
  assert (E : Queues.setQueueData name description configs q0 = q').
  { unfold Queues.setQueueData, Queues.storedDescription. subst q'.
    now rewrite Hid, Hp. }
  assert (C : existsb (fun o => negb (String.eqb (Queues.qId o) (Queues.qId q0))
                                && Queues.queueConflicts
                                     (Queues.setQueueData name description
                                                          configs q0) o)
                      (Queues.queues db) = false).
  { destruct (existsb _ _) eqn:X; [|reflexivity]. exfalso.
    apply existsb_exists in X. destruct X as (o & Ho & X).
    apply andb_true_iff in X. destruct X as [N X].
    apply negb_true_iff, String.eqb_neq in N. rewrite Hid in N.
    rewrite E in X. unfold Queues.queueConflicts in X. simpl in X.
    apply orb_true_iff in X. destruct X as [X|X].
    - apply String.eqb_eq in X. congruence.
    - apply andb_true_iff in X. destruct X as [P Nm].
      apply String.eqb_eq in P, Nm. now apply (Free o Ho N). }
  exists pre, post. eexists.
  rewrite (queue_update_unfold _ _ _ _ _ _ _ Acc). cbv zeta.
  rewrite <- Hs in F, M. rewrite F, C, M, E, Hid.
  split; [reflexivity|]. simpl. auto.
Qed.

Lemma queue_update_frame_witness :
  let q1 := Queues.mkQueue "q1" "triage" (Some "old") [] "p" 1 in
  let q2 := Queues.mkQueue "q2" "review" None [] "p" 2 in
  let db := Queues.mkDb [q1; q2] [] [] (Sample.store []) in
  let q' := Queues.mkQueue "q1" "inbox" (Some "old") ["c1"] "p" 1 in
  exists pre post db',
    Queues.update Sample.alice "p" "q1" "inbox" None ["c1"] db
    = (Queues.Return q', db')
    /\ [q1; q2] = pre ++ q1 :: post
    /\ Queues.queues db' = pre ++ q' :: post
    /\ Queues.queueAuditLogs db'
       = [] ++ [Queues.mkQueueAudit "q1" "update" "alice" (Some q1) (Some q')]
    /\ Queues.itemStore db' = Sample.store []
    /\ Queues.scoreConfigs db' = [].
Proof.
  intros q1 q2 db q'.
  apply (queue_update_frame Sample.alice "p" "q1" "inbox" None ["c1"] db q1).
  - reflexivity.
  - unfold Queues.uniqueQueueIds. simpl.
    repeat constructor; simpl; intuition discriminate.
  - now left.
  - reflexivity.
  - reflexivity.
  - intros o [<-|[<-|[]]] N _; [now elim N|discriminate].
Defined.

(** X23.  Deleting an existing queue that has no items removes that queue
    only, whatever the foreign key does for queues with items: the other
    queues keep their order, the item table is as before, one "delete"
    entry records the removed queue, and [byId] afterwards finds no queue
    and hands the validator an empty list. *)
Theorem queue_delete_then_read fk session project queue db q0 :
  hasAccess session project "annotationQueues:CUD" = true ->
  Queues.uniqueQueueIds (Queues.queues db) ->
  In q0 (Queues.queues db) ->
  Queues.qId q0 = queue -> Queues.qProjectId q0 = project ->
  (forall x, In x (items (Queues.itemStore db)) -> queueId x <> queue) ->
  exists pre post db',
    Queues.delete fk session project queue db = (Queues.Return q0, db')
    /\ Queues.queues db = pre ++ q0 :: post
    /\ Queues.queues db' = pre ++ post
    /\ Queues.queueAuditLogs db'
       = Queues.queueAuditLogs db
         ++ [Queues.mkQueueAudit queue "delete" (userId session)
                                 (Some q0) None]
    /\ Queues.itemStore db' = Queues.itemStore db
    /\ forall (V : Type) (validate : list Queues.ScoreConfig -> V),
         Queues.byId validate project queue db' = (None, validate []).
Proof.
  intros Acc U Hin Hid Hp Empty.
  apply in_split in Hin. destruct Hin as (pre & post & Hs).
  assert (B0 : Queues.byQueueId queue project q0 = true)
    by now apply byQueueId_iff.
  assert (K : forall y, Queues.byQueueId queue project y = true ->
                        Queues.qId y = Queues.qId q0).
  { intros y B. apply byQueueId_iff in B. destruct B as [B _]. congruence. }
  unfold Queues.uniqueQueueIds in U. rewrite Hs in U.
  pose proof (by_key_find Queues.qId _ pre post q0 K B0 U) as F.
  pose proof (by_key_filter Queues.qId _ pre post q0 K B0 U) as R.
  pose proof (by_key_others Queues.qId _ pre post q0 K U) as O.
  rewrite <- Hs in F, R.
  assert (NoItems : forall x, In x (items (Queues.itemStore db)) ->
                              String.eqb (queueId x) (Queues.qId q0) = false).
  { intros x Hx. apply String.eqb_neq. rewrite Hid. now apply Empty. }
  exists pre, post. eexists.
  unfold Queues.delete, Queues.tryCatch, Queues.bind,
    Queues.throwIfNoProjectAccess, Queues.queueDelete.
  rewrite Acc. simpl. rewrite F, R.
  assert (Read : forall (V : Type) (validate : list Queues.ScoreConfig -> V)
                        cfgs logs st,
            Queues.byId validate project queue
                        (Queues.mkDb (pre ++ post) cfgs logs st)
            = (None, validate [])).
  { intros V validate cfgs logs st. unfold Queues.byId. simpl.
    change (fun q => String.eqb (Queues.qId q) queue
                     && String.eqb (Queues.qProjectId q) project)
      with (Queues.byQueueId queue project).
    rewrite (find_all_false _ _ O). f_equal. f_equal.
    apply filter_none. intros c _. simpl. apply andb_false_r. }
  destruct fk.
  - rewrite (filter_all_true _ (items (Queues.itemStore db))).
    2:{ intros x Hx. now rewrite (NoItems x Hx). }
    rewrite withItems_same. simpl. rewrite Hid.
    split; [reflexivity|]. simpl. repeat split; auto.
  - assert (X : existsb (fun x => String.eqb (queueId x) (Queues.qId q0))
                        (items (Queues.itemStore db)) = false).
    { destruct (existsb _ _) eqn:X; [|reflexivity]. exfalso.
      apply existsb_exists in X. destruct X as (x & Hx & X).
      rewrite (NoItems x Hx) in X. discriminate. }
    rewrite X. simpl. rewrite Hid.
    split; [reflexivity|]. simpl. repeat split; auto.
Qed.

Lemma queue_delete_then_read_witness :
  let q1 := Queues.mkQueue "q1" "triage" None [] "p" 1 in
  let q2 := Queues.mkQueue "q2" "review" None [] "p" 2 in
  let st := Sample.store [newItem "i1" "p" "q2" "A" TRACE 10] in
  let db := Queues.mkDb [q1; q2] [] [] st in
  exists pre post db',
    Queues.delete Queues.Restrict Sample.alice "p" "q1" db
    = (Queues.Return q1, db')
    /\ [q1; q2] = pre ++ q1 :: post
    /\ Queues.queues db' = pre ++ post
    /\ Queues.queueAuditLogs db'
       = [] ++ [Queues.mkQueueAudit "q1" "delete" "alice" (Some q1) None]
    /\ Queues.itemStore db' = st
    /\ forall (V : Type) (validate : list Queues.ScoreConfig -> V),
         Queues.byId validate "p" "q1" db' = (None, validate []).
Proof.
  intros q1 q2 st db.
  apply (queue_delete_then_read Queues.Restrict Sample.alice "p" "q1" db q1).
  - reflexivity.
  - unfold Queues.uniqueQueueIds. simpl.
    repeat constructor; simpl; intuition discriminate.
  - now left.
  - reflexivity.
  - reflexivity.
  - intros x [<-|[]]. discriminate.
Defined.

(** X24.  Without the [annotationQueues:CUD] scope on the project, none of
    the three mutations of the queue router does anything: each throws
    [FORBIDDEN], which the [catch] block passes on unchanged, and the
    database is as before. *)
Theorem queue_mutations_need_access session project db :
  hasAccess session project "annotationQueues:CUD" = false ->
  let forbidden {A} : Queues.Outcome A :=
    Queues.Throw
      (Queues.TRPCError Queues.FORBIDDEN
         "User does not have access to this resource or action") in
  (forall name description configs newId now,
     Queues.create session project name description configs newId now db
     = (forbidden, db))
  /\ (forall queue name description configs,
        Queues.update session project queue name description configs db
        = (forbidden, db))
  /\ (forall fk queue,
        Queues.delete fk session project queue db = (forbidden, db)).
Proof.
  intros Acc forbidden. subst forbidden. repeat split; intros.
  - unfold Queues.create, Queues.tryCatch, Queues.bind,
      Queues.throwIfNoProjectAccess. now rewrite Acc.
  - unfold Queues.update, Queues.tryCatch, Queues.bind,
      Queues.throwIfNoProjectAccess. now rewrite Acc.
  - unfold Queues.delete, Queues.tryCatch, Queues.bind,
      Queues.throwIfNoProjectAccess. now rewrite Acc.
Qed.

Lemma queue_mutations_need_access_witness :
  let eve := mkSession "eve" (fun _ _ => false) in
  let q1 := Queues.mkQueue "q1" "triage" None [] "p" 1 in
  let db := Queues.mkDb [q1] [] [] (Sample.store []) in
  Queues.delete Queues.Cascade eve "p" "q1" db
  = (Queues.Throw
       (Queues.TRPCError Queues.FORBIDDEN
          "User does not have access to this resource or action"), db).
Proof.
  intros eve q1 db.
  destruct (queue_mutations_need_access eve "p" db eq_refl) as (_ & _ & Hd).
  apply Hd.
Defined.

(** X25.  [byId] on the queue table never fails.  It finds no queue exactly
    when none of that id is in the project, and then hands the validator an
    empty list; otherwise the validator receives the score configs of the
    project, and only of the project, whose id the queue lists. *)
Theorem queue_byId_configs {V : Type} (validate : list Queues.ScoreConfig -> V)
    project queue db :
  (fst (Queues.byId validate project queue db) = None <->
   forall q, In q (Queues.queues db) ->
             ~ (Queues.qId q = queue /\ Queues.qProjectId q = project))
  /\ (fst (Queues.byId validate project queue db) = None ->
      snd (Queues.byId validate project queue db) = validate [])
  /\ exists cs,
       snd (Queues.byId validate project queue db) = validate cs
       /\ forall c, In c cs <->
            In c (Queues.scoreConfigs db)
            /\ Queues.cfgProjectId c = project
            /\ exists q, fst (Queues.byId validate project queue db) = Some q
                         /\ In (Queues.cfgId c) (Queues.qScoreConfigs q).
Proof.
  unfold Queues.byId. simpl.
  change (fun q => String.eqb (Queues.qId q) queue
                   && String.eqb (Queues.qProjectId q) project)
    with (Queues.byQueueId queue project).
  destruct (find (Queues.byQueueId queue project) (Queues.queues db))
    as [q0|] eqn:F.
  - split; [|split; [discriminate|]].
    + split; [discriminate|]. intro H. exfalso.
      apply find_some in F. destruct F as [Hin B].
      apply byQueueId_iff in B. now apply (H q0 Hin).
    + eexists. split; [reflexivity|]. intro c.
      rewrite filter_In, andb_true_iff, String.eqb_eq, existsb_exists.
      split.
      * intros (Hc & Hp & i & Hi & E). apply String.eqb_eq in E. subst i.
        repeat split; auto. exists q0. auto.
      * intros (Hc & Hp & q & E & Hi). inversion E; subst q.
        repeat split; auto. exists (Queues.cfgId c).
        split; [exact Hi|apply String.eqb_refl].
  - set (cs := filter _ (Queues.scoreConfigs db)).
    assert (E : cs = [])
      by (apply filter_none; intros c _; simpl; apply andb_false_r).
    rewrite E. split; [|split; [reflexivity|]].
    + split; [|reflexivity]. intros _ q Hq [Hi Hp].
      pose proof (find_none _ _ F q Hq) as N.
      assert (B : Queues.byQueueId queue project q = true)
        by now apply byQueueId_iff.
      congruence.
    + exists []. split; [reflexivity|]. intro c. split; [intros []|].
      intros (_ & _ & q & X & _). discriminate.
Qed.
